(** * Hill climbing (src/hillclimbing.py): shallow embedding and properties

    The development follows the two components of the source file:

    - [gerar_vizinhos_knapsack], the bit-flip neighbour generator;
    - [HillClimbing.executar], the search loop, run with an injected
      fitness function and an injected neighbour generator.

    Python values are modelled as follows.  A solution is a [list Z]
    (a Python list of ints).  A fitness value is a rational [Q]: every int
    and every finite float is a rational, and the engine only compares
    fitness values.  Counts ([n_vizinhos], [max_iteracoes]) are [nat]:
    [range] and [while iteracao < max_iteracoes] treat a negative count
    like zero.  The module-level generator of [random] is threaded through
    the code as an explicit state.  An exception is a value of [exn].
    The [verbose] printing is left out.

    The code is embedded twice.  The first model works on values and
    carries most of the properties.  The second one keeps the lists in a
    store of objects, for the properties about copies and aliasing, and is
    shown to compute the values of the first. *)

From Stdlib Require Import ZArith QArith Lia Bool Sorted.
From stdpp Require Import base list.

Local Open Scope Z_scope.

(** ** Exceptions *)

Inductive exn : Type :=
| ValueError
| IndexError.

Inductive result (A : Type) : Type :=
| Ok (a : A)
| Raise (e : exn).

Arguments Ok {A} a.
Arguments Raise {A} e.

#[export] Instance result_ret : MRet result := fun A a => Ok a.

#[export] Instance result_bind : MBind result := fun A B k c =>
  match c with
  | Ok a => k a
  | Raise e => Raise e
  end.

(** ** The random source

    [random.randint a b] and [random.random ()] read and advance one shared
    generator state.  The interface keeps only what the code relies on:
    [randint] answers inside the closed range it is given and [random]
    answers in the half-open unit interval. *)

Class RandomSource (R : Type) : Type := {
  randint : Z -> Z -> R -> Z * R;
  random : R -> Q * R;
  randint_range : forall a b r, a <= b -> a <= fst (randint a b r) <= b;
  random_range : forall r, (0 <= fst (random r))%Q /\ (fst (random r) < 1)%Q
}.

(** [random.randint a b] raises [ValueError] on an empty range. *)
Definition py_randint {R : Type} `{RandomSource R} (a b : Z) (r : R)
    : result (Z * R) :=
  if b <? a then Raise ValueError else Ok (randint a b r).

(** A concrete source for the examples: a tape of raw draws.  Every call,
    of [randint] or of [random], consumes one draw; an exhausted tape keeps
    answering with the raw draw [0]. *)
Definition Tape : Type := list N.

Definition tape_next (t : Tape) : N * Tape :=
  match t with
  | [] => (0%N, [])
  | x :: t' => (x, t')
  end.

Definition tape_randint (a b : Z) (t : Tape) : Z * Tape :=
  let '(x, t') := tape_next t in
  (a + Z.of_N x mod (b - a + 1), t').

Definition tape_random (t : Tape) : Q * Tape :=
  let '(x, t') := tape_next t in
  (Qmake (Z.of_N x mod 2 ^ 53) (2 ^ 53), t').

#[export] Instance tape_source : RandomSource Tape.
Proof.
  refine {| randint := tape_randint; random := tape_random |}.
  - intros a b t Hab. unfold tape_randint.
    destruct (tape_next t) as [x t']. simpl.
    pose proof (Z.mod_pos_bound (Z.of_N x) (b - a + 1) ltac:(lia)). lia.
  - intros t. unfold tape_random.
    destruct (tape_next t) as [x t']. simpl.
    pose proof (Z.mod_pos_bound (Z.of_N x) (2 ^ 53) ltac:(lia)).
    unfold Qle, Qlt. simpl. split; lia.
Defined.

(** ** Comparisons on fitness values and probabilities *)

Definition Qltb (x y : Q) : bool :=
  (Qnum x * Zpos (Qden y) <? Qnum y * Zpos (Qden x))%Z.

(** ** Solutions *)

(** A solution is a Python list of ints. *)
Abbreviation Solucao := (list Z) (only parsing).

(** [vizinho[pos] = 1 - vizinho[pos]] on a copy of the list: Python reads a
    negative index from the end and raises [IndexError] out of range. *)
Definition flip (vizinho : Solucao) (pos : Z) : result Solucao :=
  let n := Z.of_nat (length vizinho) in
  let i := if pos <? 0 then pos + n else pos in
  if (0 <=? i) && (i <? n) then
    match vizinho !! Z.to_nat i with
    | Some b => Ok (<[Z.to_nat i := 1 - b]> vizinho)
    | None => Raise IndexError
    end
  else Raise IndexError.

(** Positions at which two solutions disagree, in increasing order. *)
Fixpoint diferencas_desde (i : nat) (s v : Solucao) : list nat :=
  match s, v with
  | x :: s', y :: v' =>
      if x =? y then diferencas_desde (S i) s' v'
      else i :: diferencas_desde (S i) s' v'
  | _, _ => []
  end.

Definition diferencas (s v : Solucao) : list nat := diferencas_desde 0 s v.

(** ** The neighbour generator *)

Section Gerador.
Context {R : Type} `{RandomSource R}.

(** The body of [for i in range(n_vizinhos)], with [restantes] rounds
    still to run. *)
Fixpoint gerar_laco (solucao : Solucao) (restantes : nat)
    (vizinhos : list Solucao) (sorted_pos : list Z) (r : R)
    : result (list Solucao * R) :=
  match restantes with
  | O => Ok (vizinhos, r)
  | S restantes' =>
      let n_itens := Z.of_nat (length solucao) in
      '(pos, r1) ← py_randint 0 (n_itens - 1) r;
      if existsb (Z.eqb pos) sorted_pos then
        gerar_laco solucao restantes' vizinhos sorted_pos r1
      else
        vizinho ← flip solucao pos;
        gerar_laco solucao restantes' (vizinhos ++ [vizinho])
          (sorted_pos ++ [pos]) r1
  end.

Definition gerar_vizinhos_knapsack (solucao : Solucao) (n_vizinhos : nat)
    (r : R) : result (list Solucao * R) :=
  gerar_laco solucao n_vizinhos [] [] r.

End Gerador.

(** ** The engine *)

(** [copy.deepcopy] on a value: the copy has the same contents.  Which
    object the copy is matters only for aliasing, treated on a store of
    objects in the second model below. *)
Definition deepcopy {A : Type} (x : A) : A := x.

(** How the [while] loop was left: by its condition or by [break]. *)
Inductive saida : Type :=
| PorLimite
| PorConvergencia.

Section Motor.
Context {Sol R : Type} `{RandomSource R}.

(** The attributes set by [__init__].  [self.historico] is rebound at the
    start of every [executar] and lives in the run state [estado]. *)
Record HillClimbing : Type := {
  funcao_fitness : Sol -> Q;
  gerar_vizinhos : Sol -> R -> result (list Sol * R);
  maximizar : bool
}.

Definition eh_melhor (self : HillClimbing)
    (fitness_vizinho melhor_fitness_vizinho : Q) : bool :=
  if maximizar self then Qltb melhor_fitness_vizinho fitness_vizinho
  else Qltb fitness_vizinho melhor_fitness_vizinho.

(** What one round of [for vizinho in vizinhos] does to the scan
    variables: go on to the next neighbour, or [break]. *)
Inductive veredito : Type :=
| Continuar (melhor_vizinho : option Sol) (melhor_fitness_vizinho : Q) (r : R)
| Parar (melhor_vizinho : Sol) (melhor_fitness_vizinho : Q) (r : R).

Definition avaliar_vizinho (self : HillClimbing) (estocastico : bool)
    (probabilidade_pior : Q) (vizinho : Sol)
    (melhor_vizinho : option Sol) (melhor_fitness_vizinho : Q) (r : R)
    : veredito :=
  let fitness_vizinho := funcao_fitness self vizinho in
  if eh_melhor self fitness_vizinho melhor_fitness_vizinho then
    Continuar (Some vizinho) fitness_vizinho r
  else if estocastico then
    let '(x, r1) := random r in
    if Qltb x probabilidade_pior then Parar vizinho fitness_vizinho r1
    else Continuar melhor_vizinho melhor_fitness_vizinho r1
  else Continuar melhor_vizinho melhor_fitness_vizinho r.

Fixpoint avaliar_vizinhos (self : HillClimbing) (estocastico : bool)
    (probabilidade_pior : Q) (vizinhos : list Sol)
    (melhor_vizinho : option Sol) (melhor_fitness_vizinho : Q) (r : R)
    : option Sol * Q * R :=
  match vizinhos with
  | [] => (melhor_vizinho, melhor_fitness_vizinho, r)
  | vizinho :: resto =>
      match avaliar_vizinho self estocastico probabilidade_pior vizinho
              melhor_vizinho melhor_fitness_vizinho r with
      | Continuar m f r' =>
          avaliar_vizinhos self estocastico probabilidade_pior resto m f r'
      | Parar m f r' => (Some m, f, r')
      end
  end.

(** The scan variables after a prefix of the neighbours, when no round of
    that prefix left the loop. *)
Fixpoint percorrer (self : HillClimbing) (estocastico : bool)
    (probabilidade_pior : Q) (vizinhos : list Sol)
    (melhor_vizinho : option Sol) (melhor_fitness_vizinho : Q) (r : R)
    : option (option Sol * Q * R) :=
  match vizinhos with
  | [] => Some (melhor_vizinho, melhor_fitness_vizinho, r)
  | vizinho :: resto =>
      match avaliar_vizinho self estocastico probabilidade_pior vizinho
              melhor_vizinho melhor_fitness_vizinho r with
      | Continuar m f r' =>
          percorrer self estocastico probabilidade_pior resto m f r'
      | Parar _ _ _ => None
      end
  end.

(** The neighbours to which the scan applies [funcao_fitness], in the
    order it does so: every round evaluates its neighbour first. *)
Fixpoint avaliados (self : HillClimbing) (estocastico : bool)
    (probabilidade_pior : Q) (vizinhos : list Sol)
    (melhor_vizinho : option Sol) (melhor_fitness_vizinho : Q) (r : R)
    : list Sol :=
  match vizinhos with
  | [] => []
  | vizinho :: resto =>
      match avaliar_vizinho self estocastico probabilidade_pior vizinho
              melhor_vizinho melhor_fitness_vizinho r with
      | Continuar m f r' =>
          vizinho ::
          avaliados self estocastico probabilidade_pior resto m f r'
      | Parar _ _ _ => [vizinho]
      end
  end.

(** The variables of [executar] that survive from one round of the
    [while] loop to the next. *)
Record estado : Type := {
  solucao_atual : Sol;
  fitness_atual : Q;
  historico : list Q;
  iteracao : nat;
  melhorias : nat;
  rng : R
}.

Inductive desfecho : Type :=
| Moveu (e : estado)
| Convergiu (e : estado).

(** One round of the [while] loop.  [melhor_vizinho is not None] is the
    test for a chosen neighbour: a solution is never the value [None]. *)
Definition corpo (self : HillClimbing) (estocastico : bool)
    (probabilidade_pior : Q) (e : estado) : result desfecho :=
  let iteracao' := S (iteracao e) in
  '(vizinhos, r1) ← gerar_vizinhos self (solucao_atual e) (rng e);
  let '(melhor_vizinho, melhor_fitness_vizinho, r2) :=
    avaliar_vizinhos self estocastico probabilidade_pior vizinhos
      None (fitness_atual e) r1 in
  match melhor_vizinho with
  | Some v =>
      Ok (Moveu {| solucao_atual := deepcopy v;
                   fitness_atual := melhor_fitness_vizinho;
                   historico := historico e ++ [melhor_fitness_vizinho];
                   iteracao := iteracao';
                   melhorias := S (melhorias e);
                   rng := r2 |})
  | None =>
      Ok (Convergiu {| solucao_atual := solucao_atual e;
                       fitness_atual := fitness_atual e;
                       historico := historico e;
                       iteracao := iteracao';
                       melhorias := melhorias e;
                       rng := r2 |})
  end.

(** The same round stopped inside the branch that moves, after
    [melhorias += 1] and before [self.historico.append(fitness_atual)],
    where the [verbose] print is: the history is still the one the round
    started with.  The other branch leaves the loop as in [corpo]. *)
Definition corpo_antes_do_append (self : HillClimbing) (estocastico : bool)
    (probabilidade_pior : Q) (e : estado) : result desfecho :=
  let iteracao' := S (iteracao e) in
  '(vizinhos, r1) ← gerar_vizinhos self (solucao_atual e) (rng e);
  let '(melhor_vizinho, melhor_fitness_vizinho, r2) :=
    avaliar_vizinhos self estocastico probabilidade_pior vizinhos
      None (fitness_atual e) r1 in
  match melhor_vizinho with
  | Some v =>
      Ok (Moveu {| solucao_atual := deepcopy v;
                   fitness_atual := melhor_fitness_vizinho;
                   historico := historico e;
                   iteracao := iteracao';
                   melhorias := S (melhorias e);
                   rng := r2 |})
  | None =>
      Ok (Convergiu {| solucao_atual := solucao_atual e;
                       fitness_atual := fitness_atual e;
                       historico := historico e;
                       iteracao := iteracao';
                       melhorias := melhorias e;
                       rng := r2 |})
  end.

(** [self.historico.append(fitness_atual)], the last statement of a round
    that moves. *)
Definition append_historico (e : estado) : estado :=
  {| solucao_atual := solucao_atual e;
     fitness_atual := fitness_atual e;
     historico := historico e ++ [fitness_atual e];
     iteracao := iteracao e;
     melhorias := melhorias e;
     rng := rng e |}.

(** [while iteracao < max_iteracoes], with
    [restantes = max_iteracoes - iteracao] rounds still allowed. *)
Fixpoint laco (self : HillClimbing) (estocastico : bool)
    (probabilidade_pior : Q) (restantes : nat) (e : estado)
    : result (estado * saida) :=
  match restantes with
  | O => Ok (e, PorLimite)
  | S restantes' =>
      d ← corpo self estocastico probabilidade_pior e;
      match d with
      | Moveu e' => laco self estocastico probabilidade_pior restantes' e'
      | Convergiu e' => Ok (e', PorConvergencia)
      end
  end.

Definition inicial (self : HillClimbing) (solucao_inicial : Sol) (r : R)
    : estado :=
  let solucao_atual := deepcopy solucao_inicial in
  let fitness_atual := funcao_fitness self solucao_atual in
  {| solucao_atual := solucao_atual;
     fitness_atual := fitness_atual;
     historico := [fitness_atual];
     iteracao := 0;
     melhorias := 0;
     rng := r |}.

(** [executar] with the final values of its local variables and the way
    the loop was left; [retorno] is the tuple the Python method returns. *)
Definition executar (self : HillClimbing) (solucao_inicial : Sol)
    (max_iteracoes : nat) (estocastico : bool) (probabilidade_pior : Q)
    (r : R) : result (estado * saida) :=
  laco self estocastico probabilidade_pior max_iteracoes
    (inicial self solucao_inicial r).

Definition retorno (e : estado) : Sol * Q * list Q :=
  (solucao_atual e, fitness_atual e, historico e).

(** The states at the head of the [while] loop: [e'] follows [e] when a
    round started in [e] moves to [e']. *)
Inductive alcanca (self : HillClimbing) (estocastico : bool)
    (probabilidade_pior : Q) (e : estado) : estado -> Prop :=
| alcanca_aqui : alcanca self estocastico probabilidade_pior e e
| alcanca_passo e1 e2 :
    alcanca self estocastico probabilidade_pior e e1 ->
    corpo self estocastico probabilidade_pior e1 = Ok (Moveu e2) ->
    alcanca self estocastico probabilidade_pior e e2.

End Motor.

Arguments HillClimbing Sol R : clear implicits.
Arguments estado Sol R : clear implicits.
Arguments veredito Sol R : clear implicits.
Arguments desfecho Sol R : clear implicits.

(** ** The engine on a store of objects

    Python lists are objects: [solucao.copy()] and [copy.deepcopy] make a
    new object, [vizinho[pos] = ...] changes an object in place, and the
    generator hands references to the engine.  The second model keeps the
    objects in a store and the code's variables hold references.  Objects
    are never destroyed; a new object is placed at the end of the store.
    The lists [vizinhos], [sorted_pos] and [historico] are never shared
    and stay values. *)

Abbreviation ref := nat (only parsing).
Abbreviation memoria := (list (list Z)) (only parsing).

(** The contents of an object; a reference held by the code always names
    an object of the store. *)
Definition ler (h : memoria) (l : ref) : list Z := default [] (h !! l).

Definition novo (h : memoria) (v : list Z) : ref * memoria :=
  (length h, h ++ [v]).

(** [solucao.copy()], and [copy.deepcopy] of a list of ints. *)
Definition copiar (h : memoria) (l : ref) : ref * memoria := novo h (ler h l).

(** [vizinho[pos] = 1 - vizinho[pos]], in place. *)
Definition flip_obj (h : memoria) (vizinho : ref) (pos : Z) : result memoria :=
  v ← flip (ler h vizinho) pos; Ok (<[vizinho := v]> h).

Section MotorObjetos.
Context {R : Type} `{RandomSource R}.

Fixpoint gerar_laco_obj (h : memoria) (solucao : ref) (restantes : nat)
    (vizinhos : list ref) (sorted_pos : list Z) (r : R)
    : result (list ref * memoria * R) :=
  match restantes with
  | O => Ok (vizinhos, h, r)
  | S restantes' =>
      let n_itens := Z.of_nat (length (ler h solucao)) in
      '(pos, r1) ← py_randint 0 (n_itens - 1) r;
      if existsb (Z.eqb pos) sorted_pos then
        gerar_laco_obj h solucao restantes' vizinhos sorted_pos r1
      else
        let '(vizinho, h1) := copiar h solucao in
        h2 ← flip_obj h1 vizinho pos;
        gerar_laco_obj h2 solucao restantes' (vizinhos ++ [vizinho])
          (sorted_pos ++ [pos]) r1
  end.

Definition gerar_vizinhos_knapsack_obj (n_vizinhos : nat) (h : memoria)
    (solucao : ref) (r : R) : result (list ref * memoria * R) :=
  gerar_laco_obj h solucao n_vizinhos [] [] r.

(** The engine's attributes: the fitness function reads the contents of
    the object it is given; the generator may create and change objects. *)
Record HillClimbingObj : Type := {
  fitness_obj : list Z -> Q;
  gerar_obj : memoria -> ref -> R -> result (list ref * memoria * R);
  maximizar_obj : bool
}.

(** The engine as the scan sees it while the store is [h]: the scan
    compares references by the fitness of their contents and changes no
    object. *)
Definition na_memoria (self : HillClimbingObj) (h : memoria)
    : HillClimbing ref R :=
  {| funcao_fitness := fun l => fitness_obj self (ler h l);
     gerar_vizinhos := fun l r =>
       '(vizinhos, _, r') ← gerar_obj self h l r; Ok (vizinhos, r');
     maximizar := maximizar_obj self |}.

(** The state of a run: the store, the variables of [executar], and (for
    the statements only) every reference the generator has returned. *)
Record estado_obj : Type := {
  objetos : memoria;
  locais : estado ref R;
  gerados : list ref
}.

Inductive desfecho_obj : Type :=
| MoveuObj (e : estado_obj)
| ConvergiuObj (e : estado_obj).

Definition corpo_obj (self : HillClimbingObj) (estocastico : bool)
    (probabilidade_pior : Q) (e : estado_obj) : result desfecho_obj :=
  let iteracao' := S (iteracao (locais e)) in
  '(vizinhos, h1, r1) ←
    gerar_obj self (objetos e) (solucao_atual (locais e)) (rng (locais e));
  let '(melhor_vizinho, melhor_fitness_vizinho, r2) :=
    avaliar_vizinhos (na_memoria self h1) estocastico probabilidade_pior
      vizinhos None (fitness_atual (locais e)) r1 in
  match melhor_vizinho with
  | Some v =>
      let '(solucao_atual', h2) := copiar h1 v in
      Ok (MoveuObj
            {| objetos := h2;
               locais :=
                 {| solucao_atual := solucao_atual';
                    fitness_atual := melhor_fitness_vizinho;
                    historico :=
                      historico (locais e) ++ [melhor_fitness_vizinho];
                    iteracao := iteracao';
                    melhorias := S (melhorias (locais e));
                    rng := r2 |};
               gerados := gerados e ++ vizinhos |})
  | None =>
      Ok (ConvergiuObj
            {| objetos := h1;
               locais :=
                 {| solucao_atual := solucao_atual (locais e);
                    fitness_atual := fitness_atual (locais e);
                    historico := historico (locais e);
                    iteracao := iteracao';
                    melhorias := melhorias (locais e);
                    rng := r2 |};
               gerados := gerados e ++ vizinhos |})
  end.

Fixpoint laco_obj (self : HillClimbingObj) (estocastico : bool)
    (probabilidade_pior : Q) (restantes : nat) (e : estado_obj)
    : result (estado_obj * saida) :=
  match restantes with
  | O => Ok (e, PorLimite)
  | S restantes' =>
      d ← corpo_obj self estocastico probabilidade_pior e;
      match d with
      | MoveuObj e' =>
          laco_obj self estocastico probabilidade_pior restantes' e'
      | ConvergiuObj e' => Ok (e', PorConvergencia)
      end
  end.

Definition inicial_obj (self : HillClimbingObj) (h : memoria)
    (solucao_inicial : ref) (r : R) : estado_obj :=
  let '(solucao_atual, h1) := copiar h solucao_inicial in
  let fitness_atual := fitness_obj self (ler h1 solucao_atual) in
  {| objetos := h1;
     locais := {| solucao_atual := solucao_atual;
                  fitness_atual := fitness_atual;
                  historico := [fitness_atual];
                  iteracao := 0;
                  melhorias := 0;
                  rng := r |};
     gerados := [] |}.

Definition executar_obj (self : HillClimbingObj) (h : memoria)
    (solucao_inicial : ref) (max_iteracoes : nat) (estocastico : bool)
    (probabilidade_pior : Q) (r : R) : result (estado_obj * saida) :=
  laco_obj self estocastico probabilidade_pior max_iteracoes
    (inicial_obj self h solucao_inicial r).

End MotorObjetos.

Arguments HillClimbingObj R : clear implicits.
Arguments estado_obj R : clear implicits.
Arguments desfecho_obj R : clear implicits.

(** ** The driver's configuration

    The [__main__] block builds the engine with [gerar_vizinhos_knapsack]
    at its default [n_vizinhos = 10] and maximises the value returned by
    [knapsack], a module that is not part of this file.  The examples below
    use the sum of the bits as fitness instead. *)

Definition n_vizinhos_padrao : nat := 10.

Definition soma (s : Solucao) : Q := inject_Z (fold_right Z.add 0 s).

Definition hc_knapsack {R : Type} `{RandomSource R} (n_vizinhos : nat)
    (fitness : Solucao -> Q) (maximizar : bool) : HillClimbing Solucao R :=
  {| funcao_fitness := fitness;
     gerar_vizinhos := fun solucao r =>
       gerar_vizinhos_knapsack solucao n_vizinhos r;
     maximizar := maximizar |}.

(** A generator for the examples that does not read the random source:
    every single-bit flip of the solution, by increasing position. *)
Definition gerar_todos_vizinhos {R : Type} (solucao : Solucao) (r : R)
    : result (list Solucao * R) :=
  Ok (imap (fun i b => <[i := 1 - b]> solucao) solucao, r).

Definition hc_todos {R : Type} (fitness : Solucao -> Q) (maximizar : bool)
    : HillClimbing Solucao R :=
  {| funcao_fitness := fitness;
     gerar_vizinhos := gerar_todos_vizinhos;
     maximizar := maximizar |}.

Definition hc_knapsack_obj {R : Type} `{RandomSource R} (n_vizinhos : nat)
    (fitness : list Z -> Q) (maximizar : bool) : HillClimbingObj R :=
  {| fitness_obj := fitness;
     gerar_obj := gerar_vizinhos_knapsack_obj n_vizinhos;
     maximizar_obj := maximizar |}.

(** A generator that hands back the object it was given as its only
    candidate. *)
Definition gerar_a_propria {R : Type} (h : memoria) (solucao : ref) (r : R)
    : result (list ref * memoria * R) :=
  Ok ([solucao], h, r).

(** ** The driver

    The [__main__] block: 30 trials of standard hill climbing, then 30
    trials of the stochastic one, each from a random initial solution, all
    on the one module-level random generator.  [knapsack], imported from a
    module that is not in this file, is a parameter: [knapsack_valor] is
    [lambda sol: knapsack(sol, dim=DIM)[0]].  The printing, the statistics
    of [numpy] and the writing of the result files are left out; the lists
    of final fitness values they read are the results. *)

Definition DIM : nat := 20.
Definition MAX_ITERACOES : nat := 200.

(** The float literals [0.8], [0.1] (the default [probabilidade_pior]) and
    [0.05], as the doubles they denote. *)
Definition literal_0_8 : Q := 3602879701896397 # 4503599627370496.
Definition literal_0_1 : Q := 3602879701896397 # 36028797018963968.
Definition literal_0_05 : Q := 3602879701896397 # 72057594037927936.

Section Driver.
Context {R : Type} `{RandomSource R}.

(** [[int(random.random() > 0.8) for _ in range(dim)]]. *)
Fixpoint solucao_aleatoria (dim : nat) (r : R) : Solucao * R :=
  match dim with
  | O => ([], r)
  | S dim' =>
      let '(x, r1) := random r in
      let bit := if Qltb literal_0_8 x then 1 else 0 in
      let '(resto, r2) := solucao_aleatoria dim' r1 in
      (bit :: resto, r2)
  end.

(** [for i in range(n)]: one trial per round, its final fitness appended
    to [melhores_fitness]. *)
Fixpoint ensaios (knapsack_valor : Solucao -> Q) (estocastico : bool)
    (probabilidade_pior : Q) (n : nat) (melhores_fitness : list Q) (r : R)
    : result (list Q * R) :=
  match n with
  | O => Ok (melhores_fitness, r)
  | S n' =>
      let '(solucao_inicial, r1) := solucao_aleatoria DIM r in
      let hill_climbing :=
        hc_knapsack n_vizinhos_padrao knapsack_valor true in
      '(e, _) ← executar hill_climbing solucao_inicial MAX_ITERACOES
                  estocastico probabilidade_pior r1;
      ensaios knapsack_valor estocastico probabilidade_pior n'
        (melhores_fitness ++ [fitness_atual e]) (rng e)
  end.

(** The two experiments, in the order of the source. *)
Definition principal (knapsack_valor : Solucao -> Q) (r : R)
    : result (list Q * list Q * R) :=
  '(melhores_fitness_padrao, r1) ←
    ensaios knapsack_valor false literal_0_1 30 [] r;
  '(melhores_fitness_estocastico, r2) ←
    ensaios knapsack_valor true literal_0_05 30 [] r1;
  Ok (melhores_fitness_padrao, melhores_fitness_estocastico, r2).

End Driver.

(** ** Predicates of the statements *)

(** [v] is [s] with the bit at position [pos] flipped. *)
Definition vizinho_em (s : Solucao) (pos : Z) (v : Solucao) : Prop :=
  0 <= pos < Z.of_nat (length s) /\
  exists b, s !! Z.to_nat pos = Some b /\ v = <[Z.to_nat pos := 1 - b]> s.

(** The current fitness is the fitness of the current solution and the
    last entry of the history. *)
Definition fitness_em_dia {Sol R : Type} (self : HillClimbing Sol R)
    (e : estado Sol R) : Prop :=
  last (historico e) = Some (fitness_atual e) /\
  funcao_fitness self (solucao_atual e) = fitness_atual e.

(** [b] is at least as good as [a] in the direction of the search. *)
Definition nao_piora {Sol R : Type} (self : HillClimbing Sol R) (a b : Q)
    : Prop :=
  if maximizar self then (a <= b)%Q else (b <= a)%Q.

Definition historico_ordenado {Sol R : Type} (self : HillClimbing Sol R)
    (e : estado Sol R) : Prop :=
  StronglySorted (nao_piora self) (historico e) /\
  last (historico e) = Some (fitness_atual e).

(** The generator answers the same on every state of the random source:
    the same neighbours, or the same exception. *)
Definition gerador_alheio_ao_acaso {Sol R : Type} (self : HillClimbing Sol R)
    : Prop :=
  forall (s : Sol) (ra rb : R),
    match gerar_vizinhos self s ra, gerar_vizinhos self s rb with
    | Ok (va, _), Ok (vb, _) => va = vb
    | Raise ea, Raise eb => ea = eb
    | _, _ => False
    end.

(** Two loop states that differ at most in the random source. *)
Definition mesmo_a_menos_do_acaso {Sol R : Type} (ea eb : estado Sol R)
    : Prop :=
  solucao_atual ea = solucao_atual eb /\
  fitness_atual ea = fitness_atual eb /\
  historico ea = historico eb /\
  iteracao ea = iteracao eb /\
  melhorias ea = melhorias eb.

(** The generator keeps every object of the store as it was and returns
    only objects it has created during the call. *)
Definition gerador_cria_vizinhos {R : Type}
    (gerar : memoria -> ref -> R -> result (list ref * memoria * R)) : Prop :=
  forall h l r vizinhos h' r',
    gerar h l r = Ok (vizinhos, h', r') ->
    (exists novos, h' = h ++ novos) /\
    Forall (fun v => (length h <= v < length h')%nat) vizinhos.

(** The caller's objects are as they were, the current solution is an
    object made by the engine after them, and it is none of the objects
    the generator has returned. *)
Definition solucao_propria {R : Type} (h0 : memoria) (e : estado_obj R)
    : Prop :=
  (exists novos, objetos e = h0 ++ novos) /\
  (length h0 <= solucao_atual (locais e) < length (objetos e))%nat /\
  Forall (fun v => (v < length (objetos e))%nat) (gerados e) /\
  solucao_atual (locais e) ∉ gerados e.

(** The object engine [so] and the value engine [sv] are the same engine:
    same fitness, same direction, and the generator of [so] returns
    objects holding the neighbours the generator of [sv] returns. *)
Definition refina {R : Type} (so : HillClimbingObj R)
    (sv : HillClimbing Solucao R) : Prop :=
  (forall s, fitness_obj so s = funcao_fitness sv s) /\
  maximizar_obj so = maximizar sv /\
  forall h l r, (l < length h)%nat ->
    match gerar_obj so h l r with
    | Ok (vizinhos, h', r') =>
        gerar_vizinhos sv (ler h l) r = Ok (ler h' <$> vizinhos, r')
    | Raise ex => gerar_vizinhos sv (ler h l) r = Raise ex
    end.

(** The variables of the object run hold the values of the value run. *)
Definition mesmos_valores {R : Type} (eo : estado_obj R)
    (ev : estado Solucao R) : Prop :=
  (solucao_atual (locais eo) < length (objetos eo))%nat /\
  ler (objetos eo) (solucao_atual (locais eo)) = solucao_atual ev /\
  fitness_atual (locais eo) = fitness_atual ev /\
  historico (locais eo) = historico ev /\
  iteracao (locais eo) = iteracao ev /\
  melhorias (locais eo) = melhorias ev /\
  rng (locais eo) = rng ev.

(** Every entry of the solution is 0 or 1. *)
Definition binaria (s : Solucao) : Prop := Forall (fun b => b = 0 \/ b = 1) s.

(** * Properties *)

(** ** Comparisons *)

Lemma Qltb_lt (x y : Q) : Qltb x y = true <-> (x < y)%Q.
Proof. unfold Qltb, Qlt. apply Z.ltb_lt. Qed.

Lemma Qltb_ge (x y : Q) : Qltb x y = false <-> (y <= x)%Q.
Proof. unfold Qltb, Qle. rewrite Z.ltb_ge. reflexivity. Qed.


(** ** The neighbour generator *)

Lemma flip_dentro (s : Solucao) (pos : Z) :
  0 <= pos < Z.of_nat (length s) ->
  exists v, flip s pos = Ok v /\ vizinho_em s pos v.
Proof.
  intros Hpos. unfold flip. cbv zeta.
  destruct (pos <? 0) eqn:Hneg; [apply Z.ltb_lt in Hneg; lia|].
  replace ((0 <=? pos) && (pos <? Z.of_nat (length s))) with true
    by (symmetry; apply andb_true_iff; split;
        [apply Z.leb_le | apply Z.ltb_lt]; lia).
  destruct (lookup_lt_is_Some_2 s (Z.to_nat pos)) as [b Hb]; [lia|].
  rewrite Hb. eexists; split; [reflexivity|]. split; [lia|]. eauto.
Qed.

Lemma diferencas_desde_igual (i : nat) (s : Solucao) :
  diferencas_desde i s s = [].
Proof.
  revert i. induction s as [|x s IH]; intros i; simpl; [reflexivity|].
  rewrite Z.eqb_refl. apply IH.
Qed.

Lemma diferencas_desde_flip (s : Solucao) : forall (i p : nat) (b : Z),
  s !! p = Some b ->
  diferencas_desde i s (<[p := 1 - b]> s) = [(i + p)%nat].
Proof.
  induction s as [|x s IH]; intros i p b Hp; [discriminate|].
  destruct p as [|p]; simpl in *.
  - injection Hp as ->.
    destruct (b =? 1 - b) eqn:E; [apply Z.eqb_eq in E; lia|].
    rewrite diferencas_desde_igual. f_equal. lia.
  - rewrite Z.eqb_refl, (IH (S i) p b Hp). f_equal. lia.
Qed.

Lemma vizinho_em_uma_diferenca (s : Solucao) (pos : Z) (v : Solucao) :
  vizinho_em s pos v ->
  length v = length s /\ diferencas s v = [Z.to_nat pos].
Proof.
  intros [_ (b & Hb & ->)]. split; [apply length_insert|].
  unfold diferencas. now rewrite (diferencas_desde_flip s 0 _ b Hb).
Qed.

Lemma existsb_eqb_false (pos : Z) (ps : list Z) :
  existsb (Z.eqb pos) ps = false -> pos ∉ ps.
Proof.
  intros Hex Hin. apply list_elem_of_In in Hin.
  assert (existsb (Z.eqb pos) ps = true) as Ht
    by (apply existsb_exists; exists pos; split; [done | apply Z.eqb_refl]).
  congruence.
Qed.

Section GeradorProps.
Context {R : Type} `{RandomSource R}.

Lemma py_randint_dentro (n : Z) (r : R) :
  0 < n ->
  exists pos r1, py_randint 0 (n - 1) r = Ok (pos, r1) /\ 0 <= pos < n.
Proof.
  intros Hn. unfold py_randint.
  destruct (n - 1 <? 0) eqn:E; [apply Z.ltb_lt in E; lia|].
  pose proof (randint_range 0 (n - 1) r ltac:(lia)) as Hr.
  destruct (randint 0 (n - 1) r) as [pos r1]. simpl in Hr.
  exists pos, r1. split; [reflexivity | lia].
Qed.

(** The loop keeps the flipped positions distinct and every collected
    neighbour one flip away from [solucao]; it adds at most one neighbour
    per round. *)
Lemma gerar_laco_spec (solucao : Solucao) (restantes : nat) :
  solucao <> [] ->
  forall (vizinhos : list Solucao) (sorted_pos : list Z) (r : R),
  NoDup sorted_pos ->
  Forall2 (vizinho_em solucao) sorted_pos vizinhos ->
  exists vizinhos' sorted_pos' r',
    gerar_laco solucao restantes vizinhos sorted_pos r = Ok (vizinhos', r') /\
    NoDup sorted_pos' /\
    Forall2 (vizinho_em solucao) sorted_pos' vizinhos' /\
    (length vizinhos' <= length vizinhos + restantes)%nat.
Proof.
  intros Hne. induction restantes as [|n IH]; intros vs ps r Hnd Hall.
  - exists vs, ps, r. simpl. repeat split; [done..|lia].
  - assert (0 < Z.of_nat (length solucao)) as Hlen
      by (destruct solucao; [done | simpl; lia]).
    destruct (py_randint_dentro _ r Hlen) as (pos & r1 & Hdraw & Hpos).
    cbn [gerar_laco]. rewrite Hdraw. cbn.
    destruct (existsb (Z.eqb pos) ps) eqn:Hex.
    + destruct (IH vs ps r1 Hnd Hall) as (vs' & ps' & r' & Hrun & ? & ? & ?).
      exists vs', ps', r'. repeat split; [done..|lia].
    + destruct (flip_dentro solucao pos Hpos) as (v & Hflip & Hv).
      rewrite Hflip. cbn.
      destruct (IH (vs ++ [v]) (ps ++ [pos]) r1) as
        (vs' & ps' & r' & Hrun & ? & ? & Hl).
      * apply NoDup_app. repeat split; [done| |apply NoDup_singleton].
        intros x Hx Hx'. apply list_elem_of_singleton in Hx'. subst x.
        now apply existsb_eqb_false in Hex.
      * apply Forall2_app; [done|]. now constructor.
      * rewrite length_app in Hl. simpl in Hl.
        exists vs', ps', r'. repeat split; [done..|lia].
Qed.

End GeradorProps.

Lemma elem_of_diferencas_desde (s v : Solucao) : forall (i q : nat),
  q ∈ diferencas_desde i s v <->
  exists p x y, q = (i + p)%nat /\ s !! p = Some x /\ v !! p = Some y /\ x <> y.
Proof.
  revert v. induction s as [|x s IH]; intros v i q.
  - simpl. split; [intros Hq; inversion Hq|].
    intros (p & a & b & _ & Hs & _). discriminate.
  - destruct v as [|y v].
    + simpl. split; [intros Hq; inversion Hq|].
      intros (p & a & b & _ & _ & Hv & _). discriminate.
    + assert (q ∈ diferencas_desde (S i) s v <->
              exists p a b, q = (i + S p)%nat /\ s !! p = Some a /\
                            v !! p = Some b /\ a <> b) as Hrec.
      { rewrite IH. split; intros (p & a & b & -> & ?);
          exists p, a, b; (split; [lia | done]). }
      simpl. destruct (x =? y) eqn:E.
      * apply Z.eqb_eq in E. subst y. rewrite Hrec. split.
        -- intros (p & a & b & -> & ?). exists (S p), a, b. done.
        -- intros ([|p] & a & b & -> & Hs & Hv & Hab); simpl in *.
           ++ congruence.
           ++ exists p, a, b. done.
      * apply Z.eqb_neq in E. rewrite elem_of_cons, Hrec. split.
        -- intros [-> | (p & a & b & -> & ?)].
           ++ exists 0%nat, x, y. simpl. repeat split; [lia | done].
           ++ exists (S p), a, b. done.
        -- intros ([|p] & a & b & -> & Hs & Hv & Hab); simpl in *.
           ++ left. lia.
           ++ right. exists p, a, b. done.
Qed.

(** [diferencas] lists exactly the positions where the two lists hold
    different values. *)
Lemma elem_of_diferencas (s v : Solucao) (q : nat) :
  q ∈ diferencas s v <->
  exists x y, s !! q = Some x /\ v !! q = Some y /\ x <> y.
Proof.
  unfold diferencas. rewrite elem_of_diferencas_desde. split.
  - intros (p & x & y & -> & ?). exists x, y. done.
  - intros (x & y & ?). exists q, x, y. done.
Qed.

Lemma vizinho_em_posicoes (s : Solucao) (ps : list Z) (vs : list Solucao) :
  Forall2 (vizinho_em s) ps vs ->
  NoDup ps ->
  NoDup (Z.to_nat <$> ps) /\
  Forall2 (fun p v => length v = length s /\ diferencas s v = [p])
    (Z.to_nat <$> ps) vs.
Proof.
  intros Hall Hnd. split.
  - apply NoDup_fmap_2_strong; [|done].
    intros x y Hx Hy Heq.
    assert (forall z, z ∈ ps -> 0 <= z) as Hpos.
    { intros z Hz. apply list_elem_of_lookup in Hz as [i Hi].
      destruct (Forall2_lookup_l _ _ _ _ _ Hall Hi) as (v & _ & [? _]). lia. }
    apply Hpos in Hx, Hy. lia.
  - apply Forall2_fmap_l. eapply Forall2_impl; [exact Hall|].
    intros p v Hv. simpl. now apply vizinho_em_uma_diferenca.
Qed.

(** C6: for a non-empty solution and any requested count,
    [gerar_vizinhos_knapsack] returns at most [n_vizinhos] neighbours, each
    as long as the solution and different from it at exactly one position,
    and these positions are pairwise distinct. *)
Theorem gerar_vizinhos_knapsack_um_flip {R : Type} `{RandomSource R}
    (solucao : Solucao) (n_vizinhos : nat) (r : R) :
  solucao <> [] ->
  exists (vizinhos : list Solucao) (r' : R),
    gerar_vizinhos_knapsack solucao n_vizinhos r = Ok (vizinhos, r') /\
    (length vizinhos <= n_vizinhos)%nat /\
    exists posicoes : list nat,
      NoDup posicoes /\
      Forall2 (fun p v => length v = length solucao /\
                          diferencas solucao v = [p]) posicoes vizinhos.
Proof.
  intros Hne.
  destruct (gerar_laco_spec solucao n_vizinhos Hne [] [] r)
    as (vs & ps & r' & Hrun & Hnd & Hall & Hlen);
    [apply NoDup_nil_2 | constructor |].
  exists vs, r'. split; [exact Hrun|]. split; [simpl in Hlen; lia|].
  exists (Z.to_nat <$> ps). now apply vizinho_em_posicoes.
Qed.

Lemma gerar_vizinhos_knapsack_um_flip_witness :
  [0; 1; 1] <> [] /\
  exists (vizinhos : list Solucao) (r' : Tape),
    gerar_vizinhos_knapsack [0; 1; 1] 10 [4; 2; 4; 0]%N = Ok (vizinhos, r') /\
    (length vizinhos <= 10)%nat /\
    exists posicoes : list nat,
      NoDup posicoes /\
      Forall2 (fun p v => length v = length [0; 1; 1] /\
                          diferencas [0; 1; 1] v = [p]) posicoes vizinhos.
Proof.
  split; [discriminate|].
  apply (gerar_vizinhos_knapsack_um_flip [0; 1; 1] 10 [4; 2; 4; 0]%N).
  discriminate.
Defined.

(** C10, as the code has it: the generator returns for every non-empty
    solution; for the empty solution it raises [ValueError] as soon as one
    position has to be drawn, and returns the empty list when
    [n_vizinhos] is 0, where nothing is drawn. *)
Theorem gerar_vizinhos_knapsack_total {R : Type} `{RandomSource R}
    (n_vizinhos : nat) (r : R) :
  (forall solucao : Solucao, solucao <> [] ->
     exists vizinhos r',
       gerar_vizinhos_knapsack solucao n_vizinhos r = Ok (vizinhos, r')) /\
  ((1 <= n_vizinhos)%nat ->
     gerar_vizinhos_knapsack [] n_vizinhos r = Raise ValueError) /\
  (n_vizinhos = 0%nat -> gerar_vizinhos_knapsack [] n_vizinhos r = Ok ([], r)).
Proof.
  repeat split.
  - intros solucao Hne.
    destruct (gerar_laco_spec solucao n_vizinhos Hne [] [] r)
      as (vs & ps & r' & Hrun & _); [apply NoDup_nil_2 | constructor |].
    exists vs, r'. exact Hrun.
  - intros Hn. destruct n_vizinhos as [|n]; [lia|]. reflexivity.
  - intros ->. reflexivity.
Qed.

Lemma gerar_vizinhos_knapsack_total_witness :
  ([1] <> [] /\ (1 <= 10)%nat) /\
  (exists vizinhos r',
     gerar_vizinhos_knapsack [1] 10 ([] : Tape) = Ok (vizinhos, r')) /\
  gerar_vizinhos_knapsack [] 10 ([] : Tape) = Raise ValueError.
Proof.
  split; [split; [discriminate | lia]|].
  pose proof (gerar_vizinhos_knapsack_total 10 ([] : Tape))
    as (Hne & Hraise & _).
  split; [apply Hne; discriminate | apply Hraise; lia].
Defined.

(** C10 as stated fails: with [n_vizinhos = 0] the loop body never runs,
    no position is drawn, and the call on the empty solution returns. *)
Lemma gerar_vizinhos_knapsack_vazio_retorna :
  gerar_vizinhos_knapsack [] 0 ([] : Tape) = Ok ([], []) /\
  ~ (exists e, gerar_vizinhos_knapsack [] 0 ([] : Tape) = Raise e).
Proof.
  split; [reflexivity|]. intros [e He]. discriminate He.
Qed.

(** ** The engine: one round *)

Section MotorProps.
Context {Sol R : Type} `{RandomSource R}.
Variable self : HillClimbing Sol R.
Variable estocastico : bool.
Variable probabilidade_pior : Q.

Local Abbreviation avaliar :=
  (avaliar_vizinhos self estocastico probabilidade_pior).
Local Abbreviation rodada := (corpo self estocastico probabilidade_pior).
Local Abbreviation repetir := (laco self estocastico probabilidade_pior).
Local Abbreviation segue := (alcanca self estocastico probabilidade_pior).

(** A neighbour left in [melhor_vizinho] by the scan comes with its own
    fitness, and is one of the scanned neighbours unless it was there
    before the scan. *)
Lemma avaliar_vizinhos_fitness (vizinhos : list Sol) :
  forall (m : option Sol) (f : Q) (r : R) (m' : option Sol) (f' : Q) (r' : R),
  avaliar vizinhos m f r = (m', f', r') ->
  (m' = m /\ f' = f) \/
  (exists v, m' = Some v /\ v ∈ vizinhos /\ f' = funcao_fitness self v).
Proof.
  induction vizinhos as [|v vs IH]; intros m f r m' f' r' Hscan.
  - simpl in Hscan. injection Hscan as <- <- <-. now left.
  - simpl in Hscan. unfold avaliar_vizinho in Hscan.
    destruct (eh_melhor self (funcao_fitness self v) f).
    + apply IH in Hscan as [[-> ->] | (w & -> & Hw & ->)].
      * right. exists v. repeat split. apply list_elem_of_here.
      * right. exists w. repeat split. now apply list_elem_of_further.
    + destruct estocastico.
      * destruct (random r) as [x r1].
        destruct (Qltb x probabilidade_pior).
        -- injection Hscan as <- <- <-. right. exists v.
           repeat split. apply list_elem_of_here.
        -- apply IH in Hscan as [[-> ->] | (w & -> & Hw & ->)];
             [now left|].
           right. exists w. repeat split. now apply list_elem_of_further.
      * apply IH in Hscan as [[-> ->] | (w & -> & Hw & ->)]; [now left|].
        right. exists w. repeat split. now apply list_elem_of_further.
Qed.

(** What a round that moves has done. *)
Lemma corpo_moveu (e e' : estado Sol R) :
  rodada e = Ok (Moveu e') ->
  exists vizinhos r1 v,
    gerar_vizinhos self (solucao_atual e) (rng e) = Ok (vizinhos, r1) /\
    avaliar vizinhos None (fitness_atual e) r1
      = (Some v, fitness_atual e', rng e') /\
    v ∈ vizinhos /\
    solucao_atual e' = v /\
    fitness_atual e' = funcao_fitness self v /\
    historico e' = historico e ++ [fitness_atual e'] /\
    iteracao e' = S (iteracao e) /\
    melhorias e' = S (melhorias e).
Proof.
  unfold corpo. intros Hc.
  destruct (gerar_vizinhos self (solucao_atual e) (rng e))
    as [[vizinhos r1]|ex]; [|discriminate]. cbn in Hc.
  destruct (avaliar vizinhos None (fitness_atual e) r1)
    as [[m f] r2] eqn:Hscan.
  destruct m as [v|]; [|discriminate].
  injection Hc as <-. cbn.
  exists vizinhos, r1, v. split; [reflexivity|]. split; [exact Hscan|].
  apply avaliar_vizinhos_fitness in Hscan
    as [[? _] | (w & Hw & Hin & ->)]; [discriminate|].
  injection Hw as <-. repeat split. exact Hin.
Qed.

(** What a round that converges has done. *)
Lemma corpo_convergiu (e e' : estado Sol R) :
  rodada e = Ok (Convergiu e') ->
  solucao_atual e' = solucao_atual e /\
  fitness_atual e' = fitness_atual e /\
  historico e' = historico e /\
  iteracao e' = S (iteracao e) /\
  melhorias e' = melhorias e.
Proof.
  unfold corpo. intros Hc.
  destruct (gerar_vizinhos self (solucao_atual e) (rng e))
    as [[vizinhos r1]|ex]; [|discriminate]. cbn in Hc.
  destruct (avaliar vizinhos None (fitness_atual e) r1) as [[m f] r2].
  destruct m as [v|]; [discriminate|].
  injection Hc as <-. cbn. repeat split.
Qed.

(** A round raises only when the generator does. *)
Lemma corpo_raise (e : estado Sol R) (ex : exn) :
  rodada e = Raise ex ->
  gerar_vizinhos self (solucao_atual e) (rng e) = Raise ex.
Proof.
  unfold corpo. intros Hc.
  destruct (gerar_vizinhos self (solucao_atual e) (rng e))
    as [[vizinhos r1]|ex']; cbn in Hc.
  - destruct (avaliar vizinhos None (fitness_atual e) r1) as [[m f] r2].
    destruct m; discriminate.
  - congruence.
Qed.

(** ** The engine: the loop *)

Lemma alcanca_primeiro (e e1 e2 : estado Sol R) :
  rodada e = Ok (Moveu e1) -> segue e1 e2 -> segue e e2.
Proof.
  intros Hc Hreach. induction Hreach as [|e2 e3 _ IH Hstep].
  - eapply alcanca_passo; [apply alcanca_aqui | exact Hc].
  - eapply alcanca_passo; [exact IH | exact Hstep].
Qed.

(** A property kept by every moving round holds in every state the loop
    reaches. *)
Lemma alcanca_invariante (P : estado Sol R -> Prop) :
  (forall e1 e2, P e1 -> rodada e1 = Ok (Moveu e2) -> P e2) ->
  forall e e', P e -> segue e e' -> P e'.
Proof.
  intros Hkeep e e' HP Hreach.
  induction Hreach as [|e1 e2 _ IH Hstep]; [exact HP|].
  eapply Hkeep; [exact IH | exact Hstep].
Qed.

(** The loop returns the state it has reached when the rounds run out, or
    the state left by the round that converged. *)
Lemma laco_alcanca (restantes : nat) :
  forall (e e' : estado Sol R) (s : saida),
  repetir restantes e = Ok (e', s) ->
  exists e1, segue e e1 /\
    ((s = PorLimite /\ e' = e1 /\
      iteracao e' = (iteracao e + restantes)%nat) \/
     (s = PorConvergencia /\ rodada e1 = Ok (Convergiu e') /\
      (iteracao e' <= iteracao e + restantes)%nat)).
Proof.
  induction restantes as [|n IH]; intros e e' s Hrun.
  - simpl in Hrun. injection Hrun as <- <-.
    exists e. split; [apply alcanca_aqui|]. left. repeat split. lia.
  - cbn [laco] in Hrun.
    destruct (rodada e) as [[e1|e1]|ex] eqn:Hc; cbn in Hrun;
      [| |discriminate].
    + apply IH in Hrun as (e2 & Hreach & Hend).
      exists e2. split; [now apply (alcanca_primeiro e e1)|].
      apply corpo_moveu in Hc as (_ & _ & _ & _ & _ & _ & _ & _ & _ & Hit & _).
      destruct Hend as [(-> & -> & Hn) | (-> & Hconv & Hn)];
        [left | right]; repeat split; try done; lia.
    + injection Hrun as <- <-.
      exists e. split; [apply alcanca_aqui|]. right.
      repeat split; [done|].
      apply corpo_convergiu in Hc as (_ & _ & _ & -> & _). lia.
Qed.

(** While rounds remain, the loop started in [e] goes on from any state
    it reaches. *)
Lemma laco_continua (e e' : estado Sol R) :
  segue e e' ->
  (iteracao e <= iteracao e')%nat /\
  forall restantes,
    (iteracao e' - iteracao e <= restantes)%nat ->
    repetir restantes e
      = repetir (restantes - (iteracao e' - iteracao e)) e'.
Proof.
  intros Hreach. induction Hreach as [|e1 e2 _ [Hle IH] Hstep].
  - split; [lia|]. intros n _. f_equal. lia.
  - pose proof (corpo_moveu _ _ Hstep)
      as (_ & _ & _ & _ & _ & _ & _ & _ & _ & Hit & _).
    split; [lia|]. intros n Hn.
    rewrite IH by lia.
    replace (n - (iteracao e1 - iteracao e))%nat
      with (S (n - (iteracao e2 - iteracao e)))%nat by lia.
    cbn [laco]. rewrite Hstep. reflexivity.
Qed.

End MotorProps.

(** ** The engine: invariants of a run *)

Section MotorInvariantes.
Context {Sol R : Type} `{RandomSource R}.
Variable self : HillClimbing Sol R.
Variable estocastico : bool.
Variable probabilidade_pior : Q.

Local Abbreviation rodada := (corpo self estocastico probabilidade_pior).
Local Abbreviation repetir := (laco self estocastico probabilidade_pior).
Local Abbreviation segue := (alcanca self estocastico probabilidade_pior).

Lemma fitness_em_dia_inicial (solucao_inicial : Sol) (r : R) :
  fitness_em_dia self (inicial self solucao_inicial r).
Proof. split; reflexivity. Qed.

Lemma fitness_em_dia_moveu (e1 e2 : estado Sol R) :
  fitness_em_dia self e1 -> rodada e1 = Ok (Moveu e2) -> fitness_em_dia self e2.
Proof.
  intros _ Hc.
  apply corpo_moveu in Hc
    as (_ & _ & v & _ & _ & _ & Hsol & Hfit & Hhist & _).
  split.
  - rewrite Hhist. apply last_snoc.
  - now rewrite Hsol, Hfit.
Qed.

Lemma fitness_em_dia_convergiu (e1 e2 : estado Sol R) :
  fitness_em_dia self e1 -> rodada e1 = Ok (Convergiu e2) ->
  fitness_em_dia self e2.
Proof.
  intros [Hlast Hfit] Hc.
  apply corpo_convergiu in Hc as (Hs & Hf & Hh & _).
  split; [now rewrite Hh, Hf | now rewrite Hs, Hf].
Qed.

(** C3: in every state at the head of the [while] loop, and in the state
    [executar] returns from, the fitness of the current solution is the
    last entry of the history (and is the value kept in [fitness_atual]),
    in either mode and either direction. *)
Theorem fitness_atual_ultimo_historico (solucao_inicial : Sol)
    (max_iteracoes : nat) (r : R) :
  (forall e, segue (inicial self solucao_inicial r) e ->
     last (historico e) = Some (fitness_atual e) /\
     funcao_fitness self (solucao_atual e) = fitness_atual e) /\
  (forall e s,
     executar self solucao_inicial max_iteracoes estocastico
       probabilidade_pior r = Ok (e, s) ->
     last (historico e) = Some (fitness_atual e) /\
     funcao_fitness self (solucao_atual e) = fitness_atual e).
Proof.
  assert (forall e, segue (inicial self solucao_inicial r) e ->
                    fitness_em_dia self e) as Hhead.
  { intros e. apply (alcanca_invariante self estocastico probabilidade_pior
                       (fitness_em_dia self) fitness_em_dia_moveu).
    apply fitness_em_dia_inicial. }
  split; [exact Hhead|].
  intros e s Hrun. unfold executar in Hrun.
  apply laco_alcanca in Hrun as (e1 & Hreach & Hend).
  apply Hhead in Hreach.
  destruct Hend as [(_ & -> & _) | (_ & Hconv & _)]; [exact Hreach|].
  exact (fitness_em_dia_convergiu e1 e Hreach Hconv).
Qed.

(** Each round appends at most one entry, and only the generator can make
    the loop raise. *)
Lemma laco_historico (restantes : nat) : forall e : estado Sol R,
  match repetir restantes e with
  | Ok (e', _) =>
      (length (historico e') <= length (historico e) + restantes)%nat
  | Raise ex => exists s r0, gerar_vizinhos self s r0 = Raise ex
  end.
Proof.
  induction restantes as [|n IH]; intros e; [simpl; lia|].
  cbn [laco]. destruct (rodada e) as [[e1|e1]|ex] eqn:Hc; cbn.
  - specialize (IH e1).
    destruct (repetir n e1) as [[e' s]|ex]; [|exact IH].
    apply corpo_moveu in Hc as (_ & _ & _ & _ & _ & _ & _ & _ & Hh & _).
    rewrite Hh, length_app in IH. simpl in IH. lia.
  - apply corpo_convergiu in Hc as (_ & _ & -> & _). lia.
  - apply corpo_raise in Hc. eauto.
Qed.

(** C7: [executar] always ends.  It returns a history of at most
    [max_iteracoes + 1] entries, unless the generator raised, and it does
    return when the generator never raises. *)
Theorem executar_termina (solucao_inicial : Sol) (max_iteracoes : nat)
    (r : R) :
  match executar self solucao_inicial max_iteracoes estocastico
          probabilidade_pior r with
  | Ok (e, _) => (length (historico e) <= max_iteracoes + 1)%nat
  | Raise ex => exists s r0, gerar_vizinhos self s r0 = Raise ex
  end /\
  ((forall s r0, exists vs r1, gerar_vizinhos self s r0 = Ok (vs, r1)) ->
   exists e s,
     executar self solucao_inicial max_iteracoes estocastico
       probabilidade_pior r = Ok (e, s) /\
     (length (historico e) <= max_iteracoes + 1)%nat).
Proof.
  pose proof (laco_historico max_iteracoes (inicial self solucao_inicial r))
    as Hlen.
  fold (executar self solucao_inicial max_iteracoes estocastico
          probabilidade_pior r) in Hlen.
  destruct (executar self solucao_inicial max_iteracoes estocastico
              probabilidade_pior r) as [[e s]|ex].
  - simpl in Hlen. split; [lia|]. intros _. exists e, s. split; [done | lia].
  - split; [exact Hlen|]. intros Hok.
    destruct Hlen as (s & r0 & Hraise).
    destruct (Hok s r0) as (vs & r1 & Hgen). congruence.
Qed.

(** C9: when the generator returns no neighbour in a round, that round
    leaves the loop by [break]: [executar] returns the current solution,
    its fitness and the history as they were, whatever the mode and the
    acceptance probability. *)
Theorem gerador_vazio_converge (solucao_inicial : Sol) (max_iteracoes : nat)
    (r : R) (e : estado Sol R) (r1 : R) :
  segue (inicial self solucao_inicial r) e ->
  (iteracao e < max_iteracoes)%nat ->
  gerar_vizinhos self (solucao_atual e) (rng e) = Ok ([], r1) ->
  exists e',
    executar self solucao_inicial max_iteracoes estocastico
      probabilidade_pior r = Ok (e', PorConvergencia) /\
    retorno e' = retorno e /\
    iteracao e' = S (iteracao e) /\
    melhorias e' = melhorias e /\
    rng e' = r1.
Proof.
  intros Hreach Hit Hgen.
  destruct (laco_continua self estocastico probabilidade_pior _ _ Hreach)
    as [_ Hgo].
  unfold executar. rewrite (Hgo max_iteracoes) by (simpl; lia).
  simpl (iteracao (inicial _ _ _)).
  replace (max_iteracoes - (iteracao e - 0))%nat
    with (S (max_iteracoes - S (iteracao e)))%nat by lia.
  cbn [laco]. unfold corpo. rewrite Hgen. cbn.
  eexists. split; [reflexivity|]. cbn. repeat split.
Qed.

End MotorInvariantes.

Lemma fitness_atual_ultimo_historico_witness :
  exists (e : estado Solucao Tape) (s : saida),
    executar (hc_knapsack n_vizinhos_padrao soma true) [1; 0; 0] 2 true
      (1 # 2) [0; 1; 7; 2]%N = Ok (e, s) /\
    last (historico e) = Some (fitness_atual e) /\
    soma (solucao_atual e) = fitness_atual e.
Proof.
  pose proof (fitness_atual_ultimo_historico
                (hc_knapsack n_vizinhos_padrao soma true) true (1 # 2)
                [1; 0; 0] 2 [0; 1; 7; 2]%N) as [_ Hret].
  eexists _, _. split; [vm_compute; reflexivity|].
  eapply Hret. vm_compute. reflexivity.
Defined.

(** A round is the round up to the append, followed by the append when it
    moves. *)
Lemma corpo_append {Sol R : Type} `{RandomSource R}
    (self : HillClimbing Sol R) (estocastico : bool) (p : Q)
    (e : estado Sol R) :
  corpo self estocastico p e =
  (d ← corpo_antes_do_append self estocastico p e;
   Ok (match d with
       | Moveu e' => Moveu (append_historico e')
       | Convergiu e' => Convergiu e'
       end)).
Proof.
  unfold corpo, corpo_antes_do_append.
  destruct (gerar_vizinhos self (solucao_atual e) (rng e))
    as [[vizinhos r1]|ex]; [|reflexivity]. cbn -[avaliar_vizinhos].
  destruct (avaliar_vizinhos self estocastico p vizinhos None
              (fitness_atual e) r1) as [[m f] r2].
  destruct m; reflexivity.
Qed.

(** C3 as stated fails inside a round that moves: after
    [fitness_atual = melhor_fitness_vizinho], and at the [verbose] print
    that follows, the history does not hold the new fitness yet; it is
    appended by the last statement of the round.  From [[0; 0; 0]] with
    fitness 0 the first round moves to [[0; 0; 1]] with fitness 1 while
    the history is still [[0]]. *)
Lemma fitness_atual_adiante_do_historico :
  exists e' : estado Solucao Tape,
    corpo_antes_do_append (hc_knapsack n_vizinhos_padrao soma true) false
      (1 # 10)
      (inicial (hc_knapsack n_vizinhos_padrao soma true) [0; 0; 0] [2]%N)
      = Ok (Moveu e') /\
    corpo (hc_knapsack n_vizinhos_padrao soma true) false (1 # 10)
      (inicial (hc_knapsack n_vizinhos_padrao soma true) [0; 0; 0] [2]%N)
      = Ok (Moveu (append_historico e')) /\
    solucao_atual e' = [0; 0; 1] /\
    fitness_atual e' = soma (solucao_atual e') /\
    historico e' = [0%Q] /\
    last (historico e') <> Some (fitness_atual e').
Proof.
  eexists. split; [vm_compute; reflexivity|].
  split; [vm_compute; reflexivity|].
  split; [reflexivity|]. split; [reflexivity|]. split; [reflexivity|].
  intros Heq. vm_compute in Heq. discriminate Heq.
Qed.

Lemma executar_termina_witness :
  (forall (s : Solucao) (r0 : Tape), exists vs r1,
     gerar_vizinhos_knapsack s 0 r0 = Ok (vs, r1)) /\
  exists (e : estado Solucao Tape) (s : saida),
    executar (hc_knapsack 0 soma true) [1; 0; 0] 5 false 0 [] = Ok (e, s) /\
    (length (historico e) <= 5 + 1)%nat.
Proof.
  assert (forall (s : Solucao) (r0 : Tape), exists vs r1,
            gerar_vizinhos_knapsack s 0 r0 = Ok (vs, r1)) as Hgen
    by (intros s r0; exists [], r0; reflexivity).
  split; [exact Hgen|].
  apply (executar_termina (hc_knapsack 0 soma true) false 0 [1; 0; 0] 5 []).
  exact Hgen.
Defined.

Lemma gerador_vazio_converge_witness :
  exists e' : estado Solucao Tape,
    executar (hc_knapsack 0 soma true) [1; 0; 0] 5 true 1 [3]%N
      = Ok (e', PorConvergencia) /\
    retorno e' = ([1; 0; 0], soma [1; 0; 0], [soma [1; 0; 0]]) /\
    iteracao e' = 1%nat /\
    melhorias e' = 0%nat /\
    rng e' = [3]%N.
Proof.
  apply (gerador_vazio_converge (hc_knapsack 0 soma true) true 1
           [1; 0; 0] 5 [3]%N
           (inicial (hc_knapsack 0 soma true) [1; 0; 0] [3]%N) [3]%N).
  - apply alcanca_aqui.
  - simpl. lia.
  - reflexivity.
Defined.

(** ** Standard mode: the history never worsens *)

Lemma StronglySorted_snoc {A : Type} (Rel : A -> A -> Prop) (l : list A)
    (y x : A) :
  (forall a b c, Rel a b -> Rel b c -> Rel a c) ->
  StronglySorted Rel l -> last l = Some y -> Rel y x ->
  StronglySorted Rel (l ++ [x]).
Proof.
  intros Htrans Hsorted. revert y.
  induction Hsorted as [|a l Hl IH Hall]; intros y Hlast Hyx;
    [discriminate|].
  simpl. constructor.
  - destruct l as [|b l]; [constructor; constructor|].
    apply (IH y); [|exact Hyx]. now rewrite last_cons_cons in Hlast.
  - apply Forall_app. split.
    + exact Hall.
    + constructor; [|constructor].
      destruct l as [|b l].
      * simpl in Hlast. injection Hlast as ->. exact Hyx.
      * rewrite last_cons_cons in Hlast. apply last_Some_elem_of in Hlast.
        rewrite Forall_forall in Hall. eauto.
Qed.

Lemma StronglySorted_mono {A : Type} (Rel Rel' : A -> A -> Prop)
    (l : list A) :
  (forall a b, Rel a b -> Rel' a b) ->
  StronglySorted Rel l -> StronglySorted Rel' l.
Proof.
  intros Himp Hsorted. induction Hsorted as [|a l _ IH Hall]; constructor.
  - exact IH.
  - eapply Forall_impl; [exact Hall | exact (Himp a)].
Qed.

Section ModoPadrao.
Context {Sol R : Type} `{RandomSource R}.
Variable self : HillClimbing Sol R.
Variable probabilidade_pior : Q.

Lemma nao_piora_refl (a : Q) : nao_piora self a a.
Proof. unfold nao_piora. destruct (maximizar self); apply Qle_refl. Qed.

Lemma nao_piora_trans (a b c : Q) :
  nao_piora self a b -> nao_piora self b c -> nao_piora self a c.
Proof.
  unfold nao_piora. destruct (maximizar self); intros Hab Hbc.
  - exact (Qle_trans _ _ _ Hab Hbc).
  - exact (Qle_trans _ _ _ Hbc Hab).
Qed.

Lemma eh_melhor_nao_piora (fitness_vizinho melhor_fitness_vizinho : Q) :
  eh_melhor self fitness_vizinho melhor_fitness_vizinho = true ->
  nao_piora self melhor_fitness_vizinho fitness_vizinho.
Proof.
  unfold eh_melhor, nao_piora. destruct (maximizar self); intros Hlt;
    apply Qltb_lt in Hlt; now apply Qlt_le_weak.
Qed.

(** Without the stochastic branch the scan only ever replaces the best
    fitness by a better one, and never touches the random source. *)
Lemma avaliar_vizinhos_padrao (vizinhos : list Sol) :
  forall (m : option Sol) (f : Q) (r : R) (m' : option Sol) (f' : Q) (r' : R),
  avaliar_vizinhos self false probabilidade_pior vizinhos m f r
    = (m', f', r') ->
  nao_piora self f f' /\ r' = r.
Proof.
  induction vizinhos as [|v vs IH]; intros m f r m' f' r' Hscan.
  - simpl in Hscan. injection Hscan as <- <- <-.
    split; [apply nao_piora_refl | reflexivity].
  - simpl in Hscan. unfold avaliar_vizinho in Hscan.
    destruct (eh_melhor self (funcao_fitness self v) f) eqn:Hbetter.
    + apply IH in Hscan as [Hle ->]. split; [|reflexivity].
      apply eh_melhor_nao_piora in Hbetter.
      exact (nao_piora_trans _ _ _ Hbetter Hle).
    + apply IH in Hscan. exact Hscan.
Qed.

Lemma historico_ordenado_moveu (e1 e2 : estado Sol R) :
  historico_ordenado self e1 ->
  corpo self false probabilidade_pior e1 = Ok (Moveu e2) ->
  historico_ordenado self e2.
Proof.
  intros [Hsorted Hlast] Hc.
  apply corpo_moveu in Hc
    as (vs & r1 & v & _ & Hscan & _ & _ & _ & Hhist & _).
  apply avaliar_vizinhos_padrao in Hscan as [Hle _].
  split; rewrite Hhist; [|apply last_snoc].
  exact (StronglySorted_snoc (nao_piora self) _ _ _ nao_piora_trans
           Hsorted Hlast Hle).
Qed.

(** C4: with [estocastico = False] the returned history is non-decreasing
    when maximising and non-increasing when minimising. *)
Theorem historico_monotono (solucao_inicial : Sol) (max_iteracoes : nat)
    (r : R) (e : estado Sol R) (s : saida) :
  executar self solucao_inicial max_iteracoes false probabilidade_pior r
    = Ok (e, s) ->
  (maximizar self = true -> StronglySorted Qle (historico e)) /\
  (maximizar self = false ->
   StronglySorted (fun a b => (b <= a)%Q) (historico e)).
Proof.
  intros Hrun. unfold executar in Hrun.
  apply laco_alcanca in Hrun as (e1 & Hreach & Hend).
  assert (historico_ordenado self e1) as [Hsorted _].
  { apply (alcanca_invariante self false probabilidade_pior
             (historico_ordenado self) historico_ordenado_moveu _ _) in Hreach;
      [exact Hreach|].
    split; [|reflexivity]. simpl. repeat constructor. }
  assert (historico e = historico e1) as ->.
  { destruct Hend as [(_ & -> & _) | (_ & Hconv & _)]; [reflexivity|].
    now apply corpo_convergiu in Hconv as (_ & _ & -> & _). }
  split; intros Hdir; (eapply StronglySorted_mono; [|exact Hsorted]);
    unfold nao_piora; rewrite Hdir; auto.
Qed.

End ModoPadrao.

Lemma historico_monotono_witness :
  exists (e : estado Solucao Tape) (s : saida),
    executar (hc_knapsack n_vizinhos_padrao soma true) [0; 0; 0] 4 false
      (1 # 10) [2; 2; 0; 5; 1]%N = Ok (e, s) /\
    historico e = [0; 1; 2]%Q /\
    StronglySorted Qle (historico e).
Proof.
  eexists _, _. split; [vm_compute; reflexivity|].
  split; [reflexivity|].
  eapply (historico_monotono (hc_knapsack n_vizinhos_padrao soma true)
            (1 # 10) [0; 0; 0] 4 [2; 2; 0; 5; 1]%N);
    [vm_compute; reflexivity | reflexivity].
Defined.

(** ** Stochastic mode: accepting a neighbour that does not improve *)

Section ModoEstocastico.
Context {Sol R : Type} `{RandomSource R}.
Variable self : HillClimbing Sol R.

(** A scan that went through a prefix without leaving the loop goes on
    from the variables it has then. *)
Lemma avaliar_vizinhos_app (estocastico : bool) (p : Q)
    (antes depois : list Sol) :
  forall (m : option Sol) (f : Q) (r : R) (m1 : option Sol) (f1 : Q) (r1 : R),
  percorrer self estocastico p antes m f r = Some (m1, f1, r1) ->
  avaliar_vizinhos self estocastico p (antes ++ depois) m f r
    = avaliar_vizinhos self estocastico p depois m1 f1 r1 /\
  avaliados self estocastico p (antes ++ depois) m f r
    = antes ++ avaliados self estocastico p depois m1 f1 r1.
Proof.
  induction antes as [|v vs IH]; intros m f r m1 f1 r1 Hpre.
  - simpl in Hpre. injection Hpre as <- <- <-. split; reflexivity.
  - simpl in Hpre. simpl.
    destruct (avaliar_vizinho self estocastico p v m f r) as [m2 f2 r2|];
      [|discriminate].
    apply IH in Hpre as [-> ->]. split; reflexivity.
Qed.

(** C2: in stochastic mode, a neighbour that does not improve on the best
    fitness seen so far and whose draw is below [probabilidade_pior] ends
    the scan and is the neighbour the round moves to.  The neighbours
    after it are not evaluated and have no effect on the round. *)
Theorem aceite_estocastico_interrompe (p : Q) (e : estado Sol R)
    (antes : list Sol) (v : Sol) (depois : list Sol) (r1 : R)
    (m : option Sol) (f : Q) (r2 : R) :
  gerar_vizinhos self (solucao_atual e) (rng e)
    = Ok (antes ++ v :: depois, r1) ->
  percorrer self true p antes None (fitness_atual e) r1 = Some (m, f, r2) ->
  eh_melhor self (funcao_fitness self v) f = false ->
  (fst (random r2) < p)%Q ->
  avaliar_vizinhos self true p (antes ++ v :: depois) None
    (fitness_atual e) r1
    = (Some v, funcao_fitness self v, snd (random r2)) /\
  avaliados self true p (antes ++ v :: depois) None (fitness_atual e) r1
    = antes ++ [v] /\
  corpo self true p e
    = Ok (Moveu {| solucao_atual := v;
                   fitness_atual := funcao_fitness self v;
                   historico := historico e ++ [funcao_fitness self v];
                   iteracao := S (iteracao e);
                   melhorias := S (melhorias e);
                   rng := snd (random r2) |}).
Proof.
  intros Hgen Hpre Hworse Hdraw.
  destruct (avaliar_vizinhos_app true p antes (v :: depois) _ _ _ _ _ _ Hpre)
    as [Hscan Hseen].
  assert (avaliar_vizinho self true p v m f r2
          = Parar v (funcao_fitness self v) (snd (random r2))) as Hstop.
  { unfold avaliar_vizinho. rewrite Hworse.
    destruct (random r2) as [x r3]. simpl in *.
    apply Qltb_lt in Hdraw. now rewrite Hdraw. }
  simpl in Hscan, Hseen. rewrite Hstop in Hscan, Hseen.
  split; [exact Hscan|]. split; [exact Hseen|].
  unfold corpo. rewrite Hgen. cbn -[avaliar_vizinhos].
  rewrite Hscan. reflexivity.
Qed.

(** *** Acceptance probability 1 *)

(** With probability 1 every draw is below the probability: a round of the
    scan either records an improving neighbour or stops at its
    neighbour. *)
Lemma avaliar_vizinho_p1 (v : Sol) (m : option Sol) (f : Q) (r : R) :
  avaliar_vizinho self true 1 v m f r =
    if eh_melhor self (funcao_fitness self v) f
    then Continuar (Some v) (funcao_fitness self v) r
    else Parar v (funcao_fitness self v) (snd (random r)).
Proof.
  unfold avaliar_vizinho.
  destruct (eh_melhor self (funcao_fitness self v) f); [reflexivity|].
  pose proof (random_range r) as [_ Hlt]. apply Qltb_lt in Hlt.
  destruct (random r) as [x r1]. simpl in *. now rewrite Hlt.
Qed.

Lemma avaliar_vizinhos_p1_seleciona (vizinhos : list Sol) :
  forall (m : option Sol) (f : Q) (r : R),
  vizinhos <> [] ->
  exists v f' r',
    avaliar_vizinhos self true 1 vizinhos m f r = (Some v, f', r').
Proof.
  induction vizinhos as [|v vs IH]; intros m f r Hne; [done|].
  simpl. rewrite avaliar_vizinho_p1.
  destruct (eh_melhor self (funcao_fitness self v) f); [|eauto].
  destruct vs as [|w vs]; [simpl; eauto|]. now apply IH.
Qed.

(** A round whose generator yields a neighbour always moves. *)
Lemma corpo_p1_move (e : estado Sol R) (v : Sol) (vs : list Sol) (r1 : R) :
  gerar_vizinhos self (solucao_atual e) (rng e) = Ok (v :: vs, r1) ->
  exists e', corpo self true 1 e = Ok (Moveu e').
Proof.
  intros Hgen. unfold corpo. rewrite Hgen. cbn -[avaliar_vizinhos].
  destruct (avaliar_vizinhos_p1_seleciona (v :: vs) None (fitness_atual e) r1)
    as (w & f' & r' & ->); [done|].
  eauto.
Qed.

(** When every round moves, the loop runs all its rounds. *)
Lemma laco_sempre_move (estocastico : bool) (p : Q) (restantes : nat) :
  forall e : estado Sol R,
  (forall e1, alcanca self estocastico p e e1 ->
     exists e2, corpo self estocastico p e1 = Ok (Moveu e2)) ->
  exists e',
    laco self estocastico p restantes e = Ok (e', PorLimite) /\
    iteracao e' = (iteracao e + restantes)%nat /\
    melhorias e' = (melhorias e + restantes)%nat /\
    length (historico e') = (length (historico e) + restantes)%nat.
Proof.
  induction restantes as [|n IH]; intros e Hmove.
  - exists e. simpl. repeat split; lia.
  - destruct (Hmove e (alcanca_aqui _ _ _ _)) as [e1 Hc].
    destruct (IH e1) as (e' & Hrun & Hit & Hmel & Hlen).
    { intros e2 Hreach. apply Hmove.
      now apply (alcanca_primeiro self estocastico p e e1). }
    exists e'. cbn [laco]. rewrite Hc. cbn. split; [exact Hrun|].
    apply corpo_moveu in Hc
      as (_ & _ & _ & _ & _ & _ & _ & _ & Hh & Hi & Hm).
    rewrite Hh, length_app in Hlen. simpl in Hlen. lia.
Qed.

(** C1, as the code has it: in stochastic mode with acceptance probability
    1 and a generator that yields at least one neighbour in every round of
    the run, every round moves to a neighbour.  The first neighbour
    scanned is the one moved to whenever it does not improve on the
    current fitness; an improving neighbour is only recorded and the scan
    goes on with the next ones.  The run ends only when the rounds run
    out. *)
Theorem aceita_sempre_p1 (solucao_inicial : Sol) (max_iteracoes : nat)
    (r : R) :
  (forall e, alcanca self true 1 (inicial self solucao_inicial r) e ->
     exists v vs r1,
       gerar_vizinhos self (solucao_atual e) (rng e) = Ok (v :: vs, r1)) ->
  (forall e v vs r1,
     gerar_vizinhos self (solucao_atual e) (rng e) = Ok (v :: vs, r1) ->
     eh_melhor self (funcao_fitness self v) (fitness_atual e) = false ->
     exists e', corpo self true 1 e = Ok (Moveu e') /\
                solucao_atual e' = v /\
                fitness_atual e' = funcao_fitness self v) /\
  (forall v vs f r1,
     eh_melhor self (funcao_fitness self v) f = true ->
     avaliar_vizinhos self true 1 (v :: vs) None f r1
       = avaliar_vizinhos self true 1 vs (Some v) (funcao_fitness self v) r1) /\
  (forall e, alcanca self true 1 (inicial self solucao_inicial r) e ->
     exists e', corpo self true 1 e = Ok (Moveu e')) /\
  exists e,
    executar self solucao_inicial max_iteracoes true 1 r
      = Ok (e, PorLimite) /\
    iteracao e = max_iteracoes /\
    melhorias e = max_iteracoes /\
    length (historico e) = S max_iteracoes.
Proof.
  intros Hgen.
  assert (forall e, alcanca self true 1 (inicial self solucao_inicial r) e ->
            exists e', corpo self true 1 e = Ok (Moveu e')) as Hmove.
  { intros e Hreach. destruct (Hgen e Hreach) as (v & vs & r1 & Hg).
    exact (corpo_p1_move e v vs r1 Hg). }
  split; [|split; [|split; [exact Hmove|]]].
  - intros e v vs r1 Hg Hworse. unfold corpo. rewrite Hg.
    cbn -[avaliar_vizinhos]. cbn [avaliar_vizinhos].
    rewrite avaliar_vizinho_p1, Hworse. eexists. repeat split.
  - intros v vs f r1 Hbetter. cbn [avaliar_vizinhos].
    now rewrite avaliar_vizinho_p1, Hbetter.
  - destruct (laco_sempre_move true 1 max_iteracoes _ Hmove)
      as (e & Hrun & Hit & Hmel & Hlen).
    exists e. split; [exact Hrun|]. simpl in Hit, Hmel, Hlen.
    repeat split; lia.
Qed.

End ModoEstocastico.

(** ** The engine run with [gerar_vizinhos_knapsack] *)

Section MotorKnapsack.
Context {R : Type} `{RandomSource R}.

Lemma gerar_laco_prefixo (solucao : Solucao) (restantes : nat) :
  forall (vizinhos : list Solucao) (sorted_pos : list Z) (r : R)
         (vizinhos' : list Solucao) (r' : R),
  gerar_laco solucao restantes vizinhos sorted_pos r = Ok (vizinhos', r') ->
  exists novos, vizinhos' = vizinhos ++ novos.
Proof.
  induction restantes as [|n IH]; intros vs ps r vs' r' Hrun.
  - simpl in Hrun. injection Hrun as <- <-. exists []. now rewrite app_nil_r.
  - cbn [gerar_laco] in Hrun.
    destruct (py_randint 0 (Z.of_nat (length solucao) - 1) r)
      as [[pos r1]|ex]; [|discriminate]. cbn in Hrun.
    destruct (existsb (Z.eqb pos) ps); [now apply IH in Hrun|].
    destruct (flip solucao pos) as [v|ex]; [|discriminate]. cbn in Hrun.
    apply IH in Hrun as [novos ->]. exists (v :: novos).
    now rewrite <- app_assoc.
Qed.

(** Asked for at least one neighbour of a non-empty solution, the
    generator returns at least one: the first position drawn is new. *)
Lemma gerar_vizinhos_knapsack_nao_vazio (solucao : Solucao) (n : nat) (r : R) :
  solucao <> [] ->
  exists v vs r1, gerar_vizinhos_knapsack solucao (S n) r = Ok (v :: vs, r1).
Proof.
  intros Hne.
  destruct (gerar_laco_spec solucao (S n) Hne [] [] r)
    as (vs' & ps' & r' & Hrun & _); [apply NoDup_nil_2 | constructor |].
  unfold gerar_vizinhos_knapsack. rewrite Hrun.
  cbn [gerar_laco] in Hrun.
  destruct (py_randint 0 (Z.of_nat (length solucao) - 1) r)
    as [[pos r1]|ex]; [|discriminate]. cbn in Hrun.
  destruct (flip solucao pos) as [v|ex]; [|discriminate]. cbn in Hrun.
  apply gerar_laco_prefixo in Hrun as [novos ->]. simpl. eauto.
Qed.

Lemma gerar_vizinhos_knapsack_comprimento (solucao : Solucao) (n : nat)
    (r : R) (vizinhos : list Solucao) (r' : R) (v : Solucao) :
  solucao <> [] ->
  gerar_vizinhos_knapsack solucao n r = Ok (vizinhos, r') ->
  v ∈ vizinhos -> length v = length solucao.
Proof.
  intros Hne Hrun Hin.
  destruct (gerar_laco_spec solucao n Hne [] [] r)
    as (vs' & ps' & r'' & Hrun' & _ & Hall & _);
    [apply NoDup_nil_2 | constructor |].
  unfold gerar_vizinhos_knapsack in Hrun. rewrite Hrun in Hrun'.
  injection Hrun' as <- <-.
  apply list_elem_of_lookup in Hin as [i Hi].
  destruct (Forall2_lookup_r _ _ _ _ _ Hall Hi) as (pos & _ & Hv).
  now apply vizinho_em_uma_diferenca in Hv as [Hlen _].
Qed.

Variable n_vizinhos : nat.
Variable fitness : Solucao -> Q.
Variable direcao : bool.

(** The current solution keeps the length of the initial one, so a run
    started on a non-empty solution always gets a neighbour. *)
Lemma knapsack_comprimento (estocastico : bool) (p : Q)
    (solucao_inicial : Solucao) (r : R) (e : estado Solucao R) :
  solucao_inicial <> [] ->
  alcanca (hc_knapsack n_vizinhos fitness direcao) estocastico p
    (inicial (hc_knapsack n_vizinhos fitness direcao) solucao_inicial r) e ->
  length (solucao_atual e) = length solucao_inicial.
Proof.
  intros Hne.
  apply (alcanca_invariante _ estocastico p
           (fun e => length (solucao_atual e) = length solucao_inicial));
    [|reflexivity].
  intros e1 e2 Hlen Hc.
  apply corpo_moveu in Hc as (vs & r1 & v & Hgen & _ & Hin & -> & _).
  simpl in Hgen. rewrite <- Hlen.
  eapply gerar_vizinhos_knapsack_comprimento; [|exact Hgen | exact Hin].
  intros Hnil. rewrite Hnil in Hlen.
  destruct solucao_inicial; [done | discriminate].
Qed.

Lemma knapsack_sempre_vizinho (estocastico : bool) (p : Q)
    (solucao_inicial : Solucao) (r : R) (e : estado Solucao R) :
  solucao_inicial <> [] ->
  (1 <= n_vizinhos)%nat ->
  alcanca (hc_knapsack n_vizinhos fitness direcao) estocastico p
    (inicial (hc_knapsack n_vizinhos fitness direcao) solucao_inicial r) e ->
  exists v vs r1,
    gerar_vizinhos (hc_knapsack n_vizinhos fitness direcao)
      (solucao_atual e) (rng e) = Ok (v :: vs, r1).
Proof.
  intros Hne Hn Hreach.
  pose proof (knapsack_comprimento _ _ _ _ _ Hne Hreach) as Hlen.
  destruct n_vizinhos as [|n]; [lia|]. simpl.
  apply gerar_vizinhos_knapsack_nao_vazio.
  intros Hnil. rewrite Hnil in Hlen.
  destruct solucao_inicial; [done | discriminate].
Qed.

End MotorKnapsack.

Lemma aceite_estocastico_interrompe_witness :
  (gerar_vizinhos_knapsack [0; 0; 0] n_vizinhos_padrao [0; 1; 2]%N
     = Ok ([[1; 0; 0]] ++ [0; 1; 0] :: [[0; 0; 1]], ([] : Tape)) /\
   percorrer (hc_knapsack n_vizinhos_padrao soma true) true (1 # 2)
     [[1; 0; 0]] None (soma [0; 0; 0]) ([] : Tape)
     = Some (Some [1; 0; 0], soma [1; 0; 0], []) /\
   eh_melhor (hc_knapsack (R := Tape) n_vizinhos_padrao soma true)
     (soma [0; 1; 0]) (soma [1; 0; 0]) = false /\
   (fst (random ([] : Tape)) < 1 # 2)%Q) /\
  avaliados (hc_knapsack n_vizinhos_padrao soma true) true (1 # 2)
    ([[1; 0; 0]] ++ [0; 1; 0] :: [[0; 0; 1]]) None (soma [0; 0; 0])
    ([] : Tape) = [[1; 0; 0]] ++ [[0; 1; 0]] /\
  corpo (hc_knapsack n_vizinhos_padrao soma true) true (1 # 2)
    (inicial (hc_knapsack n_vizinhos_padrao soma true) [0; 0; 0] [0; 1; 2]%N)
    = Ok (Moveu {| solucao_atual := [0; 1; 0];
                   fitness_atual := soma [0; 1; 0];
                   historico := [soma [0; 0; 0]] ++ [soma [0; 1; 0]];
                   iteracao := 1;
                   melhorias := 1;
                   rng := snd (random ([] : Tape)) |}).
Proof.
  assert (gerar_vizinhos_knapsack [0; 0; 0] n_vizinhos_padrao [0; 1; 2]%N
            = Ok ([[1; 0; 0]] ++ [0; 1; 0] :: [[0; 0; 1]], ([] : Tape)))
    as Hgen by reflexivity.
  assert (percorrer (hc_knapsack n_vizinhos_padrao soma true) true (1 # 2)
            [[1; 0; 0]] None (soma [0; 0; 0]) ([] : Tape)
          = Some (Some [1; 0; 0], soma [1; 0; 0], [])) as Hpre
    by reflexivity.
  assert (eh_melhor (hc_knapsack (R := Tape) n_vizinhos_padrao soma true)
            (soma [0; 1; 0]) (soma [1; 0; 0]) = false) as Hworse
    by reflexivity.
  assert (fst (random ([] : Tape)) < 1 # 2)%Q as Hdraw by reflexivity.
  split; [repeat split; assumption|].
  exact (proj2 (aceite_estocastico_interrompe
                  (hc_knapsack n_vizinhos_padrao soma true) (1 # 2)
                  (inicial (hc_knapsack n_vizinhos_padrao soma true)
                     [0; 0; 0] [0; 1; 2]%N)
                  [[1; 0; 0]] [0; 1; 0] [[0; 0; 1]] [] (Some [1; 0; 0])
                  (soma [1; 0; 0]) [] Hgen Hpre Hworse Hdraw)).
Defined.

Lemma aceita_sempre_p1_witness :
  (forall e,
     alcanca (hc_knapsack n_vizinhos_padrao soma true) true 1
       (inicial (hc_knapsack n_vizinhos_padrao soma true) [0; 0] [0; 1]%N) e ->
     exists v vs r1,
       gerar_vizinhos (hc_knapsack n_vizinhos_padrao soma true)
         (solucao_atual e) (rng e) = Ok (v :: vs, r1)) /\
  exists e : estado Solucao Tape,
    executar (hc_knapsack n_vizinhos_padrao soma true) [0; 0] 7 true 1
      [0; 1]%N = Ok (e, PorLimite) /\
    iteracao e = 7%nat /\
    melhorias e = 7%nat /\
    length (historico e) = 8%nat.
Proof.
  assert (forall e,
     alcanca (hc_knapsack n_vizinhos_padrao soma true) true 1
       (inicial (hc_knapsack n_vizinhos_padrao soma true) [0; 0] [0; 1]%N) e ->
     exists v vs r1,
       gerar_vizinhos (hc_knapsack n_vizinhos_padrao soma true)
         (solucao_atual e) (rng e) = Ok (v :: vs, r1)) as Hgen.
  { intros e. apply knapsack_sempre_vizinho; [discriminate|].
    unfold n_vizinhos_padrao. lia. }
  split; [exact Hgen|].
  exact (proj2 (proj2 (proj2 (aceita_sempre_p1
                                (hc_knapsack n_vizinhos_padrao soma true)
                                [0; 0] 7 [0; 1]%N Hgen)))).
Defined.

(** C1 as stated fails: an improving first neighbour is only recorded and
    the scan goes on.  From [[0; 0]] the neighbours are [[1; 0]] and
    [[0; 1]], both of fitness 1; the first one improves on 0, the second
    one does not improve on 1, is accepted, and the round moves to it. *)
Lemma primeiro_vizinho_preterido :
  (forall e,
     alcanca (hc_knapsack n_vizinhos_padrao soma true) true 1
       (inicial (hc_knapsack n_vizinhos_padrao soma true) [0; 0] [0; 1]%N) e ->
     exists v vs r1,
       gerar_vizinhos (hc_knapsack n_vizinhos_padrao soma true)
         (solucao_atual e) (rng e) = Ok (v :: vs, r1)) /\
  gerar_vizinhos_knapsack [0; 0] n_vizinhos_padrao [0; 1]%N
    = Ok ([[1; 0]; [0; 1]], ([] : Tape)) /\
  exists e' : estado Solucao Tape,
    corpo (hc_knapsack n_vizinhos_padrao soma true) true 1
      (inicial (hc_knapsack n_vizinhos_padrao soma true) [0; 0] [0; 1]%N)
      = Ok (Moveu e') /\
    solucao_atual e' = [0; 1] /\
    solucao_atual e' <> [1; 0].
Proof.
  split.
  { intros e. apply knapsack_sempre_vizinho; [discriminate|].
    unfold n_vizinhos_padrao. lia. }
  split; [reflexivity|].
  eexists. split; [vm_compute; reflexivity|].
  split; [reflexivity | discriminate].
Qed.

(** ** Stochastic mode with acceptance probability 0 *)

Section ProbabilidadeZero.
Context {Sol R : Type} `{RandomSource R}.
Variable self : HillClimbing Sol R.

(** No draw is below 0: the stochastic scan makes the decisions of the
    standard scan, and only the random source ends up elsewhere. *)
Lemma avaliar_vizinhos_p0 (vizinhos : list Sol) :
  forall (m : option Sol) (f : Q) (ra rb : R),
  exists ra',
    avaliar_vizinhos self true 0 vizinhos m f ra
      = (fst (fst (avaliar_vizinhos self false 0 vizinhos m f rb)),
         snd (fst (avaliar_vizinhos self false 0 vizinhos m f rb)), ra').
Proof.
  induction vizinhos as [|v vs IH]; intros m f ra rb.
  - exists ra. reflexivity.
  - simpl. unfold avaliar_vizinho.
    destruct (eh_melhor self (funcao_fitness self v) f); [apply IH|].
    pose proof (random_range ra) as [Hge _]. apply Qltb_ge in Hge.
    destruct (random ra) as [x ra1]. simpl in Hge. rewrite Hge. apply IH.
Qed.

Lemma corpo_p0 (ea eb : estado Sol R) :
  gerador_alheio_ao_acaso self ->
  mesmo_a_menos_do_acaso ea eb ->
  match corpo self true 0 ea, corpo self false 0 eb with
  | Ok (Moveu ea'), Ok (Moveu eb') => mesmo_a_menos_do_acaso ea' eb'
  | Ok (Convergiu ea'), Ok (Convergiu eb') => mesmo_a_menos_do_acaso ea' eb'
  | Raise xa, Raise xb => xa = xb
  | _, _ => False
  end.
Proof.
  intros Hgen (Hs & Hf & Hh & Hi & Hm). unfold corpo.
  specialize (Hgen (solucao_atual ea) (rng ea) (rng eb)).
  rewrite <- Hs.
  destruct (gerar_vizinhos self (solucao_atual ea) (rng ea))
    as [[va ra1]|xa],
    (gerar_vizinhos self (solucao_atual ea) (rng eb)) as [[vb rb1]|xb];
    cbn -[avaliar_vizinhos]; try done.
  subst vb. rewrite <- Hf.
  destruct (avaliar_vizinhos_p0 va None (fitness_atual ea) ra1 rb1)
    as [ra' ->].
  destruct (avaliar_vizinhos self false 0 va None (fitness_atual ea) rb1)
    as [[m f] rb']. simpl.
  destruct m as [v|]; repeat split; simpl; congruence.
Qed.

Lemma laco_p0 (restantes : nat) : forall ea eb : estado Sol R,
  gerador_alheio_ao_acaso self ->
  mesmo_a_menos_do_acaso ea eb ->
  match laco self true 0 restantes ea, laco self false 0 restantes eb with
  | Ok (ea', sa), Ok (eb', sb) => mesmo_a_menos_do_acaso ea' eb' /\ sa = sb
  | Raise xa, Raise xb => xa = xb
  | _, _ => False
  end.
Proof.
  induction restantes as [|n IH]; intros ea eb Hgen Hsame; [now simpl|].
  cbn [laco]. pose proof (corpo_p0 ea eb Hgen Hsame) as Hc.
  destruct (corpo self true 0 ea) as [[ea1|ea1]|xa],
    (corpo self false 0 eb) as [[eb1|eb1]|xb]; try done; cbn.
  now apply IH.
Qed.

(** C5, as the code has it: when the neighbour generator does not depend
    on the state of the random source, stochastic mode with acceptance
    probability 0 returns the solution, the fitness and the history that
    standard mode returns on the same inputs (or raises the same
    exception). *)
Theorem estocastico_p0_igual_padrao (solucao_inicial : Sol)
    (max_iteracoes : nat) (r : R) :
  gerador_alheio_ao_acaso self ->
  match executar self solucao_inicial max_iteracoes true 0 r,
        executar self solucao_inicial max_iteracoes false 0 r with
  | Ok (ea, sa), Ok (eb, sb) => retorno ea = retorno eb /\ sa = sb
  | Raise xa, Raise xb => xa = xb
  | _, _ => False
  end.
Proof.
  intros Hgen. unfold executar.
  pose proof (laco_p0 max_iteracoes (inicial self solucao_inicial r)
                (inicial self solucao_inicial r) Hgen
                ltac:(repeat split)) as Hrun.
  destruct (laco self true 0 max_iteracoes (inicial self solucao_inicial r))
    as [[ea sa]|xa],
    (laco self false 0 max_iteracoes (inicial self solucao_inicial r))
    as [[eb sb]|xb]; try done.
  destruct Hrun as [(Hs & Hf & Hh & _) ->]. split; [|reflexivity].
  unfold retorno. congruence.
Qed.

End ProbabilidadeZero.

Lemma estocastico_p0_igual_padrao_witness :
  gerador_alheio_ao_acaso (hc_todos (R := Tape) soma true) /\
  exists (ea eb : estado Solucao Tape) (sa sb : saida),
    executar (hc_todos soma true) [0; 1; 0] 5 true 0 [7; 9]%N = Ok (ea, sa) /\
    executar (hc_todos soma true) [0; 1; 0] 5 false 0 [7; 9]%N
      = Ok (eb, sb) /\
    retorno ea = ([1; 1; 1], 3%Q, [1; 2; 3]%Q) /\
    retorno ea = retorno eb /\ sa = sb.
Proof.
  assert (gerador_alheio_ao_acaso (hc_todos (R := Tape) soma true)) as Hgen
    by (intros s ra rb; reflexivity).
  split; [exact Hgen|].
  pose proof (estocastico_p0_igual_padrao (hc_todos soma true)
                [0; 1; 0] 5 [7; 9]%N Hgen) as Hsame.
  destruct (executar (hc_todos soma true) [0; 1; 0] 5 true 0 [7; 9]%N)
    as [[ea sa]|xa] eqn:Ha;
    [|vm_compute in Ha; discriminate Ha].
  destruct (executar (hc_todos soma true) [0; 1; 0] 5 false 0 [7; 9]%N)
    as [[eb sb]|xb] eqn:Hb; [|contradiction].
  exists ea, eb, sa, sb. repeat split; try apply Hsame.
  vm_compute in Ha. injection Ha as <- <-. reflexivity.
Defined.

(** C5 as stated fails: [gerar_vizinhos_knapsack] and the acceptance test
    draw from the same random source.  With probability 0 the stochastic
    run still draws once for every neighbour that does not improve, so its
    next call of the generator sees other positions than the standard run
    does.  From [[1; 0; 0]] both runs first move to [[1; 1; 0]]; the
    standard run then draws position 0 ten times and converges, while the
    stochastic run, one draw ahead, ends its round on the draw of position
    2 and moves on to [[1; 1; 1]]. *)
Lemma estocastico_p0_difere_do_padrao :
  exists (ea eb : estado Solucao Tape) (sa sb : saida),
    executar (hc_knapsack n_vizinhos_padrao soma true) [1; 0; 0] 2 true 0
      [0; 1; 0; 0; 0; 0; 0; 0; 0; 0; 0; 0; 0; 0; 0; 0; 0; 0; 0; 0; 2]%N
      = Ok (ea, sa) /\
    executar (hc_knapsack n_vizinhos_padrao soma true) [1; 0; 0] 2 false 0
      [0; 1; 0; 0; 0; 0; 0; 0; 0; 0; 0; 0; 0; 0; 0; 0; 0; 0; 0; 0; 2]%N
      = Ok (eb, sb) /\
    retorno ea = ([1; 1; 1], 3%Q, [1; 2; 3]%Q) /\
    retorno eb = ([1; 1; 0], 2%Q, [1; 2]%Q) /\
    retorno ea <> retorno eb.
Proof.
  eexists _, _, _, _.
  split; [vm_compute; reflexivity|].
  split; [vm_compute; reflexivity|].
  split; [reflexivity|]. split; [reflexivity|]. discriminate.
Qed.

(** ** Objects: who owns the current solution *)

Section Objetos.
Context {R : Type} `{RandomSource R}.

Lemma gerar_laco_obj_cria (solucao : ref) (restantes : nat) :
  forall (h : memoria) (vizinhos : list ref) (sorted_pos : list Z) (r : R)
         (vizinhos' : list ref) (h' : memoria) (r' : R),
  gerar_laco_obj h solucao restantes vizinhos sorted_pos r
    = Ok (vizinhos', h', r') ->
  exists novos criados,
    h' = h ++ novos /\ vizinhos' = vizinhos ++ criados /\
    Forall (fun v => (length h <= v < length h')%nat) criados.
Proof.
  induction restantes as [|n IH]; intros h vs ps r vs' h' r' Hrun.
  - simpl in Hrun. injection Hrun as <- <- <-.
    exists [], []. rewrite !app_nil_r. repeat split. constructor.
  - cbn [gerar_laco_obj] in Hrun.
    destruct (py_randint 0 (Z.of_nat (length (ler h solucao)) - 1) r)
      as [[pos r1]|ex]; [|discriminate]. cbn -[gerar_laco_obj] in Hrun.
    destruct (existsb (Z.eqb pos) ps); [now apply IH in Hrun|].
    unfold flip_obj in Hrun.
    destruct (flip (ler (h ++ [ler h solucao]) (length h)) pos) as [v|ex];
      [|discriminate]. cbn -[gerar_laco_obj] in Hrun.
    replace (<[length h := v]> (h ++ [ler h solucao])) with (h ++ [v])
      in Hrun
      by (rewrite insert_app_r_alt by lia; now rewrite Nat.sub_diag).
    apply IH in Hrun as (novos & criados & -> & -> & Hall).
    exists (v :: novos), (length h :: criados).
    rewrite <- !app_assoc. repeat split.
    rewrite !length_app in *. simpl in *.
    constructor; [lia|].
    eapply Forall_impl; [exact Hall|]. simpl. intros; lia.
Qed.

Lemma gerar_vizinhos_knapsack_obj_cria (n_vizinhos : nat) :
  gerador_cria_vizinhos (gerar_vizinhos_knapsack_obj (R := R) n_vizinhos).
Proof.
  intros h l r vs h' r' Hrun.
  apply gerar_laco_obj_cria in Hrun as (novos & criados & -> & -> & Hall).
  split; [eauto | exact Hall].
Qed.

Variable self : HillClimbingObj R.
Variable estocastico : bool.
Variable probabilidade_pior : Q.

(** What a round that moves has done to the store. *)
Lemma corpo_obj_moveu (e e' : estado_obj R) :
  corpo_obj self estocastico probabilidade_pior e = Ok (MoveuObj e') ->
  exists vizinhos h1 r1 v,
    gerar_obj self (objetos e) (solucao_atual (locais e)) (rng (locais e))
      = Ok (vizinhos, h1, r1) /\
    v ∈ vizinhos /\
    solucao_atual (locais e') = length h1 /\
    objetos e' = h1 ++ [ler h1 v] /\
    gerados e' = gerados e ++ vizinhos.
Proof.
  unfold corpo_obj. intros Hc.
  destruct (gerar_obj self (objetos e) (solucao_atual (locais e))
              (rng (locais e))) as [[[vizinhos h1] r1]|ex]; [|discriminate].
  cbn -[avaliar_vizinhos] in Hc.
  destruct (avaliar_vizinhos (na_memoria self h1) estocastico
              probabilidade_pior vizinhos None (fitness_atual (locais e)) r1)
    as [[m f] r2] eqn:Hscan.
  destruct m as [v|]; [|discriminate].
  injection Hc as <-. cbn.
  exists vizinhos, h1, r1, v. repeat split.
  apply avaliar_vizinhos_fitness in Hscan
    as [[? _] | (w & Hw & Hin & _)]; [discriminate|].
  now injection Hw as <-.
Qed.

Lemma corpo_obj_convergiu (e e' : estado_obj R) :
  corpo_obj self estocastico probabilidade_pior e = Ok (ConvergiuObj e') ->
  exists vizinhos h1 r1,
    gerar_obj self (objetos e) (solucao_atual (locais e)) (rng (locais e))
      = Ok (vizinhos, h1, r1) /\
    solucao_atual (locais e') = solucao_atual (locais e) /\
    objetos e' = h1 /\
    gerados e' = gerados e ++ vizinhos.
Proof.
  unfold corpo_obj. intros Hc.
  destruct (gerar_obj self (objetos e) (solucao_atual (locais e))
              (rng (locais e))) as [[[vizinhos h1] r1]|ex]; [|discriminate].
  cbn -[avaliar_vizinhos] in Hc.
  destruct (avaliar_vizinhos (na_memoria self h1) estocastico
              probabilidade_pior vizinhos None (fitness_atual (locais e)) r1)
    as [[m f] r2].
  destruct m as [v|]; [discriminate|].
  injection Hc as <-. cbn. exists vizinhos, h1, r1. repeat split.
Qed.

Lemma solucao_propria_inicial (h0 : memoria) (solucao_inicial : ref) (r : R) :
  solucao_propria h0 (inicial_obj self h0 solucao_inicial r).
Proof.
  unfold solucao_propria, inicial_obj. simpl.
  rewrite length_app. simpl. repeat split.
  - eauto.
  - lia.
  - lia.
  - constructor.
  - apply not_elem_of_nil.
Qed.

Hypothesis gerador_ok : gerador_cria_vizinhos (gerar_obj self).

Lemma solucao_propria_corpo (h0 : memoria) (e : estado_obj R) :
  solucao_propria h0 e ->
  match corpo_obj self estocastico probabilidade_pior e with
  | Ok (MoveuObj e') | Ok (ConvergiuObj e') => solucao_propria h0 e'
  | Raise _ => True
  end.
Proof.
  intros ([novos0 Hpre] & Hsol & Hall & Hnot).
  destruct e as [obj loc ger]. simpl in *. subst obj.
  rewrite Forall_forall in Hall.
  destruct (corpo_obj self estocastico probabilidade_pior _)
    as [[e'|e']|ex] eqn:Hc; [| |exact I].
  - apply corpo_obj_moveu in Hc
      as (vs & h1 & r1 & v & Hgen & _ & Hs & Hobj & Hger).
    simpl in *.
    apply gerador_ok in Hgen as [[novos1 ->] Hnew].
    rewrite Forall_forall in Hnew.
    destruct e' as [obj' loc' ger']. simpl in *. subst obj' ger'.
    unfold solucao_propria. simpl. rewrite Hs, !length_app in *. simpl.
    repeat split.
    + rewrite <- !app_assoc. eauto.
    + lia.
    + lia.
    + apply Forall_forall. intros x [Hx | Hx]%elem_of_app.
      * apply Hall in Hx. lia.
      * apply Hnew in Hx. lia.
    + intros [Hx | Hx]%elem_of_app.
      * apply Hall in Hx. lia.
      * apply Hnew in Hx. lia.
  - apply corpo_obj_convergiu in Hc
      as (vs & h1 & r1 & Hgen & Hs & Hobj & Hger).
    simpl in *.
    apply gerador_ok in Hgen as [[novos1 ->] Hnew].
    rewrite Forall_forall in Hnew.
    destruct e' as [obj' loc' ger']. simpl in *. subst obj' ger'.
    unfold solucao_propria. simpl. rewrite Hs, !length_app in *.
    repeat split.
    + rewrite <- !app_assoc. eauto.
    + lia.
    + lia.
    + apply Forall_forall. intros x [Hx | Hx]%elem_of_app.
      * apply Hall in Hx. lia.
      * apply Hnew in Hx. lia.
    + intros [Hx | Hx]%elem_of_app; [done|].
      apply Hnew in Hx. lia.
Qed.

Lemma solucao_propria_laco (h0 : memoria) (restantes : nat) :
  forall (e e' : estado_obj R) (s : saida),
  solucao_propria h0 e ->
  laco_obj self estocastico probabilidade_pior restantes e = Ok (e', s) ->
  solucao_propria h0 e'.
Proof.
  induction restantes as [|n IH]; intros e e' s Hinv Hrun.
  - simpl in Hrun. now injection Hrun as <- <-.
  - cbn [laco_obj] in Hrun.
    pose proof (solucao_propria_corpo h0 e Hinv) as Hstep.
    destruct (corpo_obj self estocastico probabilidade_pior e)
      as [[e1|e1]|ex]; cbn in Hrun; [| |discriminate].
    + exact (IH e1 e' s Hstep Hrun).
    + now injection Hrun as <- <-.
Qed.

End Objetos.




(** ** The store model computes what the value model computes *)

Lemma ler_app_l (h novos : memoria) (l : ref) :
  (l < length h)%nat -> ler (h ++ novos) l = ler h l.
Proof. intros Hl. unfold ler. now rewrite lookup_app_l. Qed.

Lemma ler_novo (h : memoria) (v : list Z) (novos : memoria) :
  ler (h ++ v :: novos) (length h) = v.
Proof. unfold ler. now rewrite list_lookup_middle. Qed.

Section Refinamento.
Context {R : Type} `{RandomSource R}.

Lemma gerar_laco_obj_refina (solucao : ref) (restantes : nat) :
  forall (h : memoria) (vizinhos : list ref) (sorted_pos : list Z) (r : R),
  (solucao < length h)%nat ->
  Forall (fun v => (v < length h)%nat) vizinhos ->
  match gerar_laco_obj h solucao restantes vizinhos sorted_pos r with
  | Ok (vizinhos', h', r') =>
      gerar_laco (ler h solucao) restantes (ler h <$> vizinhos) sorted_pos r
        = Ok (ler h' <$> vizinhos', r')
  | Raise ex =>
      gerar_laco (ler h solucao) restantes (ler h <$> vizinhos) sorted_pos r
        = Raise ex
  end.
Proof.
  induction restantes as [|n IH]; intros h vs ps r Hsol Hvs; [reflexivity|].
  cbn [gerar_laco_obj gerar_laco].
  destruct (py_randint 0 (Z.of_nat (length (ler h solucao)) - 1) r)
    as [[pos r1]|ex]; [|reflexivity].
  cbn -[gerar_laco_obj gerar_laco].
  destruct (existsb (Z.eqb pos) ps); [now apply IH|].
  unfold flip_obj. rewrite (ler_novo h (ler h solucao) []).
  destruct (flip (ler h solucao) pos) as [v|ex]; [|reflexivity].
  cbn -[gerar_laco_obj gerar_laco].
  replace (<[length h := v]> (h ++ [ler h solucao])) with (h ++ [v])
    by (rewrite insert_app_r_alt by lia; now rewrite Nat.sub_diag).
  specialize (IH (h ++ [v]) (vs ++ [length h]) (ps ++ [pos]) r1).
  rewrite ler_app_l in IH by exact Hsol.
  replace (ler (h ++ [v]) <$> vs ++ [length h])
    with ((ler h <$> vs) ++ [v]) in IH.
  - apply IH.
    + rewrite length_app. simpl. lia.
    + apply Forall_app. split.
      * eapply Forall_impl; [exact Hvs|]. simpl. intros x Hx.
        rewrite length_app. lia.
      * constructor; [|constructor]. rewrite length_app. simpl. lia.
  - rewrite fmap_app. simpl. rewrite (ler_novo h v []). f_equal.
    apply Forall_fmap_ext. eapply Forall_impl; [exact Hvs|].
    simpl. intros x Hx. now rewrite ler_app_l.
Qed.

Lemma hc_knapsack_obj_refina (n_vizinhos : nat) (fitness : list Z -> Q)
    (direcao : bool) :
  refina (hc_knapsack_obj n_vizinhos fitness direcao)
         (hc_knapsack n_vizinhos fitness direcao).
Proof.
  split; [reflexivity|]. split; [reflexivity|].
  intros h l r Hl. simpl.
  exact (gerar_laco_obj_refina l n_vizinhos h [] [] r Hl (Forall_nil_2 _)).
Qed.

Variable so : HillClimbingObj R.
Variable sv : HillClimbing Solucao R.
Variable estocastico : bool.
Variable probabilidade_pior : Q.
Hypothesis so_sv : refina so sv.
Hypothesis gerador_ok : gerador_cria_vizinhos (gerar_obj so).

(** The scan over references chooses the reference of the neighbour the
    scan over values chooses. *)
Lemma avaliar_vizinhos_refina (h : memoria) (vizinhos : list ref) :
  forall (m : option ref) (f : Q) (r : R),
  avaliar_vizinhos sv estocastico probabilidade_pior (ler h <$> vizinhos)
    (ler h <$> m) f r =
  let '(m', f', r') :=
    avaliar_vizinhos (na_memoria so h) estocastico probabilidade_pior
      vizinhos m f r in
  (ler h <$> m', f', r').
Proof.
  destruct so_sv as (Hfit & Hdir & _).
  induction vizinhos as [|v vs IH]; intros m f r; [reflexivity|].
  simpl. unfold avaliar_vizinho, eh_melhor. simpl.
  rewrite Hfit, Hdir.
  destruct (if maximizar sv
            then Qltb f (funcao_fitness sv (ler h v))
            else Qltb (funcao_fitness sv (ler h v)) f).
  - apply (IH (Some v)).
  - destruct estocastico; [|apply IH].
    destruct (random r) as [x r1].
    destruct (Qltb x probabilidade_pior); [reflexivity | apply IH].
Qed.

Lemma corpo_obj_refina (eo : estado_obj R) (ev : estado Solucao R) :
  mesmos_valores eo ev ->
  match corpo_obj so estocastico probabilidade_pior eo,
        corpo sv estocastico probabilidade_pior ev with
  | Ok (MoveuObj eo'), Ok (Moveu ev') => mesmos_valores eo' ev'
  | Ok (ConvergiuObj eo'), Ok (Convergiu ev') => mesmos_valores eo' ev'
  | Raise xo, Raise xv => xo = xv
  | _, _ => False
  end.
Proof.
  intros (Hval & Hs & Hf & Hh & Hi & Hm & Hr).
  destruct so_sv as (_ & _ & Hgen).
  specialize (Hgen (objetos eo) (solucao_atual (locais eo)) (rng (locais eo))
                Hval).
  unfold corpo_obj, corpo. rewrite <- Hs, <- Hr, <- Hf.
  destruct (gerar_obj so (objetos eo) (solucao_atual (locais eo))
              (rng (locais eo))) as [[[vs h1] r1]|ex] eqn:Hgo;
    rewrite Hgen; cbn -[avaliar_vizinhos]; [|reflexivity].
  apply gerador_ok in Hgo as [[novos Hh1] Hnew].
  pose proof (avaliar_vizinhos_refina h1 vs None
                (fitness_atual (locais eo)) r1) as Hscan.
  simpl (ler h1 <$> None) in Hscan. rewrite Hscan.
  destruct (avaliar_vizinhos (na_memoria so h1) estocastico
              probabilidade_pior vs None (fitness_atual (locais eo)) r1)
    as [[m f] r2].
  destruct m as [v|]; simpl; unfold mesmos_valores; simpl.
  - rewrite length_app, (ler_novo h1 (ler h1 v) []). simpl.
    repeat split; try congruence. lia.
  - subst h1. rewrite length_app, ler_app_l by exact Hval.
    repeat split; try congruence. lia.
Qed.

Lemma laco_obj_refina (restantes : nat) :
  forall (eo : estado_obj R) (ev : estado Solucao R),
  mesmos_valores eo ev ->
  match laco_obj so estocastico probabilidade_pior restantes eo,
        laco sv estocastico probabilidade_pior restantes ev with
  | Ok (eo', so'), Ok (ev', sv') => mesmos_valores eo' ev' /\ so' = sv'
  | Raise xo, Raise xv => xo = xv
  | _, _ => False
  end.
Proof.
  induction restantes as [|n IH]; intros eo ev Hrel; [now simpl|].
  cbn [laco_obj laco]. pose proof (corpo_obj_refina eo ev Hrel) as Hc.
  destruct (corpo_obj so estocastico probabilidade_pior eo)
    as [[eo1|eo1]|xo],
    (corpo sv estocastico probabilidade_pior ev) as [[ev1|ev1]|xv];
    try done; cbn.
  now apply IH.
Qed.

(** [executar] on objects returns an object holding the solution that
    [executar] on values returns, with the same fitness and history, and
    raises when it raises. *)
Lemma executar_obj_refina (h : memoria) (solucao_inicial : ref)
    (max_iteracoes : nat) (r : R) :
  match executar_obj so h solucao_inicial max_iteracoes estocastico
          probabilidade_pior r,
        executar sv (ler h solucao_inicial) max_iteracoes estocastico
          probabilidade_pior r with
  | Ok (eo, so'), Ok (ev, sv') =>
      (ler (objetos eo) (solucao_atual (locais eo)),
       fitness_atual (locais eo), historico (locais eo)) = retorno ev /\
      so' = sv'
  | Raise xo, Raise xv => xo = xv
  | _, _ => False
  end.
Proof.
  assert (mesmos_valores (inicial_obj so h solucao_inicial r)
            (inicial sv (ler h solucao_inicial) r)) as Hini.
  { destruct so_sv as (Hfit & _).
    unfold mesmos_valores, inicial_obj, inicial, deepcopy. simpl.
    rewrite length_app, (ler_novo h (ler h solucao_inicial) []), Hfit.
    simpl. repeat split. lia. }
  pose proof (laco_obj_refina max_iteracoes _ _ Hini) as Hrun.
  unfold executar_obj, executar.
  destruct (laco_obj so estocastico probabilidade_pior max_iteracoes
              (inicial_obj so h solucao_inicial r)) as [[eo s1]|xo],
    (laco sv estocastico probabilidade_pior max_iteracoes
       (inicial sv (ler h solucao_inicial) r)) as [[ev s2]|xv];
    try done.
  destruct Hrun as [(_ & Hs & Hf & Hh & _) ->].
  split; [|reflexivity]. unfold retorno. congruence.
Qed.

End Refinamento.

(** * Further properties of the code *)

(** ** The neighbour generator *)

Section GeradorMais.
Context {R : Type} `{RandomSource R}.

(** A draw that does not raise lies in the range asked for. *)
Lemma py_randint_ok (a b : Z) (r : R) (pos : Z) (r1 : R) :
  py_randint a b r = Ok (pos, r1) ->
  a <= pos <= b /\ (pos, r1) = randint a b r.
Proof.
  unfold py_randint. destruct (b <? a) eqn:E; [discriminate|].
  apply Z.ltb_ge in E. intros [= Hdraw].
  pose proof (randint_range a b r E) as Hr. rewrite Hdraw in Hr.
  split; [exact Hr | now rewrite Hdraw].
Qed.

(** Whenever the loop returns, the positions it has flipped are distinct
    and each neighbour is the solution with one of them flipped. *)
Lemma gerar_laco_inv (solucao : Solucao) (restantes : nat) :
  forall (vizinhos : list Solucao) (sorted_pos : list Z) (r : R)
         (vizinhos' : list Solucao) (r' : R),
  gerar_laco solucao restantes vizinhos sorted_pos r = Ok (vizinhos', r') ->
  NoDup sorted_pos ->
  Forall2 (vizinho_em solucao) sorted_pos vizinhos ->
  exists sorted_pos',
    NoDup sorted_pos' /\ Forall2 (vizinho_em solucao) sorted_pos' vizinhos'.
Proof.
  induction restantes as [|n IH]; intros vs ps r vs' r' Hrun Hnd Hall.
  - simpl in Hrun. injection Hrun as <- <-. eauto.
  - cbn [gerar_laco] in Hrun.
    destruct (py_randint 0 (Z.of_nat (length solucao) - 1) r)
      as [[pos r1]|ex] eqn:Hdraw; [|discriminate]. cbn in Hrun.
    apply py_randint_ok in Hdraw as [Hpos _].
    destruct (existsb (Z.eqb pos) ps) eqn:Hex; [now apply IH in Hrun|].
    destruct (flip_dentro solucao pos ltac:(lia)) as (v & Hflip & Hv).
    rewrite Hflip in Hrun. cbn in Hrun.
    apply IH in Hrun; [exact Hrun| |].
    + apply NoDup_app. repeat split; [done| |apply NoDup_singleton].
      intros x Hx Hx'. apply list_elem_of_singleton in Hx'. subst x.
      now apply existsb_eqb_false in Hex.
    + apply Forall2_app; [done|]. now constructor.
Qed.

Lemma gerar_vizinhos_knapsack_inv (solucao : Solucao) (n_vizinhos : nat)
    (r : R) (vizinhos : list Solucao) (r' : R) :
  gerar_vizinhos_knapsack solucao n_vizinhos r = Ok (vizinhos, r') ->
  exists posicoes,
    NoDup posicoes /\ Forall2 (vizinho_em solucao) posicoes vizinhos.
Proof.
  intros Hrun.
  apply (gerar_laco_inv solucao n_vizinhos [] [] r vizinhos r' Hrun);
    [apply NoDup_nil_2 | constructor].
Qed.

(** X1: the generator never returns more neighbours than the solution has
    positions, whatever the count asked for. *)
Theorem gerar_vizinhos_knapsack_limite (solucao : Solucao) (n_vizinhos : nat)
    (r : R) (vizinhos : list Solucao) (r' : R) :
  gerar_vizinhos_knapsack solucao n_vizinhos r = Ok (vizinhos, r') ->
  (length vizinhos <= length solucao)%nat.
Proof.
  intros Hrun.
  apply gerar_vizinhos_knapsack_inv in Hrun as (ps & Hnd & Hall).
  rewrite <- (Forall2_length _ _ _ Hall).
  destruct (vizinho_em_posicoes solucao ps vizinhos Hall Hnd) as [Hnat _].
  assert (Z.to_nat <$> ps ⊆+ seq 0 (length solucao)) as Hsub.
  { apply NoDup_submseteq; [exact Hnat|].
    intros x Hx. apply list_elem_of_fmap in Hx as (pos & -> & Hpos).
    apply list_elem_of_lookup in Hpos as [i Hi].
    destruct (Forall2_lookup_l _ _ _ _ _ Hall Hi) as (v & _ & [Hrange _]).
    apply elem_of_seq. lia. }
  apply submseteq_length in Hsub.
  now rewrite length_fmap, length_seq in Hsub.
Qed.

(** X2: asked for at least one neighbour of a non-empty solution, the
    generator returns at least one, and the first one flips the first
    position drawn. *)
Theorem gerar_vizinhos_knapsack_primeiro (solucao : Solucao) (n_vizinhos : nat)
    (r : R) :
  solucao <> [] ->
  (1 <= n_vizinhos)%nat ->
  exists v vs r',
    gerar_vizinhos_knapsack solucao n_vizinhos r = Ok (v :: vs, r') /\
    diferencas solucao v =
      [Z.to_nat (fst (randint 0 (Z.of_nat (length solucao) - 1) r))].
Proof.
  intros Hne Hn. destruct n_vizinhos as [|n]; [lia|].
  destruct (gerar_laco_spec solucao (S n) Hne [] [] r)
    as (vs' & ps' & r' & Hrun & _); [apply NoDup_nil_2 | constructor |].
  unfold gerar_vizinhos_knapsack. rewrite Hrun.
  cbn [gerar_laco] in Hrun.
  destruct (py_randint 0 (Z.of_nat (length solucao) - 1) r)
    as [[pos r1]|ex] eqn:Hdraw; [|discriminate]. cbn in Hrun.
  apply py_randint_ok in Hdraw as [Hpos Hdraw].
  destruct (flip_dentro solucao pos ltac:(lia)) as (v & Hflip & Hv).
  rewrite Hflip in Hrun. cbn in Hrun.
  apply gerar_laco_prefixo in Hrun as [novos ->]. simpl.
  exists v, novos, r'. split; [reflexivity|].
  apply vizinho_em_uma_diferenca in Hv as [_ ->].
  now rewrite <- Hdraw.
Qed.

Lemma vizinho_em_mesma_posicao (s : Solucao) (p q : Z) (v : Solucao) :
  vizinho_em s p v -> vizinho_em s q v -> p = q.
Proof.
  intros Hp Hq. pose proof Hp as [Hrp _]. pose proof Hq as [Hrq _].
  apply vizinho_em_uma_diferenca in Hp as [_ Hp].
  apply vizinho_em_uma_diferenca in Hq as [_ Hq].
  rewrite Hp in Hq. injection Hq as Hq. lia.
Qed.

(** X3: the neighbours returned are pairwise different lists, and none of
    them is the solution itself. *)
Theorem gerar_vizinhos_knapsack_distintos (solucao : Solucao)
    (n_vizinhos : nat) (r : R) (vizinhos : list Solucao) (r' : R) :
  gerar_vizinhos_knapsack solucao n_vizinhos r = Ok (vizinhos, r') ->
  NoDup vizinhos /\ solucao ∉ vizinhos.
Proof.
  intros Hrun.
  apply gerar_vizinhos_knapsack_inv in Hrun as (ps & Hnd & Hall).
  split.
  - clear -Hnd Hall. induction Hall as [|p v ps vs Hv Hall IH];
      [apply NoDup_nil_2|].
    apply NoDup_cons in Hnd as [Hp Hnd].
    apply NoDup_cons. split; [|now apply IH].
    intros Hin. apply list_elem_of_lookup in Hin as [i Hi].
    destruct (Forall2_lookup_r _ _ _ _ _ Hall Hi) as (q & Hq & Hv').
    rewrite (vizinho_em_mesma_posicao _ _ _ _ Hv Hv') in Hp.
    apply Hp. eapply list_elem_of_lookup_2, Hq.
  - intros Hin. apply list_elem_of_lookup in Hin as [i Hi].
    destruct (Forall2_lookup_r _ _ _ _ _ Hall Hi) as (q & _ & Hv).
    apply vizinho_em_uma_diferenca in Hv as [_ Hdiff].
    unfold diferencas in Hdiff.
    now rewrite diferencas_desde_igual in Hdiff.
Qed.

Lemma vizinho_em_binaria (s : Solucao) (pos : Z) (v : Solucao) :
  binaria s -> vizinho_em s pos v -> binaria v.
Proof.
  intros Hs [_ (b & Hb & ->)]. apply Forall_insert; [exact Hs|].
  unfold binaria in Hs. rewrite Forall_lookup in Hs.
  destruct (Hs _ _ Hb) as [-> | ->]; [right | left]; reflexivity.
Qed.

(** X4: the neighbours of a solution of bits are solutions of bits. *)
Theorem gerar_vizinhos_knapsack_binarios (solucao : Solucao)
    (n_vizinhos : nat) (r : R) (vizinhos : list Solucao) (r' : R) :
  binaria solucao ->
  gerar_vizinhos_knapsack solucao n_vizinhos r = Ok (vizinhos, r') ->
  Forall binaria vizinhos.
Proof.
  intros Hbin Hrun.
  apply gerar_vizinhos_knapsack_inv in Hrun as (ps & _ & Hall).
  apply Forall_lookup. intros i v Hi.
  destruct (Forall2_lookup_r _ _ _ _ _ Hall Hi) as (q & _ & Hv).
  exact (vizinho_em_binaria _ _ _ Hbin Hv).
Qed.

End GeradorMais.

(** X5: flipping the same position again gives the solution back, for
    every index Python accepts: the solution is a neighbour of each of its
    neighbours. *)
Theorem flip_flip (s : Solucao) (pos : Z) (v : Solucao) :
  flip s pos = Ok v -> flip v pos = Ok s.
Proof.
  unfold flip. cbv zeta.
  set (i := if pos <? 0 then pos + Z.of_nat (length s) else pos).
  destruct ((0 <=? i) && (i <? Z.of_nat (length s))) eqn:Hin; [|discriminate].
  destruct (s !! Z.to_nat i) as [b|] eqn:Hb; [|discriminate].
  intros [= <-]. rewrite length_insert. fold i. rewrite Hin.
  rewrite list_lookup_insert_eq by (now apply lookup_lt_Some in Hb).
  rewrite list_insert_insert_eq.
  replace (1 - (1 - b)) with b by lia. now rewrite list_insert_id.
Qed.

Lemma gerar_vizinhos_knapsack_limite_witness :
  exists (vizinhos : list Solucao) (r' : Tape),
    gerar_vizinhos_knapsack [1; 0] 10 [0; 1; 1; 0]%N = Ok (vizinhos, r') /\
    (length vizinhos <= length [1; 0])%nat.
Proof.
  eexists _, _. split; [vm_compute; reflexivity|].
  eapply (gerar_vizinhos_knapsack_limite [1; 0] 10 [0; 1; 1; 0]%N).
  vm_compute. reflexivity.
Defined.

Lemma gerar_vizinhos_knapsack_primeiro_witness :
  ([0; 1; 1] <> [] /\ (1 <= 3)%nat) /\
  exists v vs (r' : Tape),
    gerar_vizinhos_knapsack [0; 1; 1] 3 [5; 0; 2]%N = Ok (v :: vs, r') /\
    diferencas [0; 1; 1] v =
      [Z.to_nat (fst (randint 0 (Z.of_nat (length [0; 1; 1]) - 1)
                        ([5; 0; 2]%N : Tape)))].
Proof.
  split; [split; [discriminate | lia]|].
  apply (gerar_vizinhos_knapsack_primeiro [0; 1; 1] 3 [5; 0; 2]%N);
    [discriminate | lia].
Defined.

Lemma gerar_vizinhos_knapsack_distintos_witness :
  exists (vizinhos : list Solucao) (r' : Tape),
    gerar_vizinhos_knapsack [0; 1; 1] 10 [5; 0; 2; 4]%N
      = Ok (vizinhos, r') /\
    NoDup vizinhos /\ [0; 1; 1] ∉ vizinhos.
Proof.
  eexists _, _. split; [vm_compute; reflexivity|].
  eapply (gerar_vizinhos_knapsack_distintos [0; 1; 1] 10 [5; 0; 2; 4]%N).
  vm_compute. reflexivity.
Defined.

Lemma gerar_vizinhos_knapsack_binarios_witness :
  binaria [0; 1; 1] /\
  exists (vizinhos : list Solucao) (r' : Tape),
    gerar_vizinhos_knapsack [0; 1; 1] 10 [5; 0; 2; 4]%N
      = Ok (vizinhos, r') /\
    Forall binaria vizinhos.
Proof.
  assert (binaria [0; 1; 1]) as Hbin by (repeat constructor; auto).
  split; [exact Hbin|].
  eexists _, _. split; [vm_compute; reflexivity|].
  eapply (gerar_vizinhos_knapsack_binarios [0; 1; 1] 10 [5; 0; 2; 4]%N);
    [exact Hbin | vm_compute; reflexivity].
Defined.

Lemma flip_flip_witness :
  flip [0; 1; 1] (-1) = Ok [0; 1; 0] /\ flip [0; 1; 0] (-1) = Ok [0; 1; 1].
Proof.
  split; [reflexivity|]. apply (flip_flip [0; 1; 1] (-1)). reflexivity.
Defined.

(** ** The engine: counters and exceptions *)

Section MotorMais.
Context {Sol R : Type} `{RandomSource R}.
Variable self : HillClimbing Sol R.
Variable estocastico : bool.
Variable probabilidade_pior : Q.

Local Abbreviation rodada := (corpo self estocastico probabilidade_pior).
Local Abbreviation repetir := (laco self estocastico probabilidade_pior).
Local Abbreviation segue := (alcanca self estocastico probabilidade_pior).

(** At the head of the loop every round so far has moved. *)
Lemma contadores_alcanca (solucao_inicial : Sol) (r : R) (e : estado Sol R) :
  segue (inicial self solucao_inicial r) e ->
  melhorias e = iteracao e /\
  length (historico e) = S (melhorias e) /\
  head (historico e) = Some (funcao_fitness self solucao_inicial).
Proof.
  apply (alcanca_invariante self estocastico probabilidade_pior
           (fun e => melhorias e = iteracao e /\
                     length (historico e) = S (melhorias e) /\
                     head (historico e)
                       = Some (funcao_fitness self solucao_inicial)));
    [|repeat split].
  intros e1 e2 (Hm & Hl & Hh) Hc.
  apply corpo_moveu in Hc
    as (_ & _ & _ & _ & _ & _ & _ & _ & Hhist & Hit & Hmel).
  rewrite Hhist, Hit, Hmel, length_app. simpl. repeat split; [lia | lia |].
  destruct (historico e1); [discriminate | exact Hh].
Qed.

(** X6: what [executar] returns is consistent: the history starts with the
    fitness of the initial solution and has one entry more than there were
    moves; a run that used up its iterations moved in every one of them,
    and a run that converged moved in every iteration but the last. *)
Theorem executar_contadores (solucao_inicial : Sol) (max_iteracoes : nat)
    (r : R) (e : estado Sol R) (s : saida) :
  executar self solucao_inicial max_iteracoes estocastico
    probabilidade_pior r = Ok (e, s) ->
  head (historico e) = Some (funcao_fitness self solucao_inicial) /\
  length (historico e) = S (melhorias e) /\
  match s with
  | PorLimite => iteracao e = max_iteracoes /\ melhorias e = max_iteracoes
  | PorConvergencia =>
      iteracao e = S (melhorias e) /\ (iteracao e <= max_iteracoes)%nat
  end.
Proof.
  intros Hrun. unfold executar in Hrun.
  apply laco_alcanca in Hrun as (e1 & Hreach & Hend).
  apply contadores_alcanca in Hreach as (Hm & Hl & Hh).
  destruct Hend as [(-> & -> & Hit) | (-> & Hconv & Hit)].
  - simpl in Hit. repeat split; try done; lia.
  - apply corpo_convergiu in Hconv as (_ & _ & Hhist & Hi & Hmel).
    simpl in Hit. rewrite Hhist, Hmel. repeat split; try done; lia.
Qed.

(** A state reached from [e] is [e] itself, or is reached from the state
    the first round moves to. *)
Lemma alcanca_caso (e e2 : estado Sol R) :
  segue e e2 ->
  e2 = e \/ exists e1, rodada e = Ok (Moveu e1) /\ segue e1 e2.
Proof.
  intros Hreach. induction Hreach as [|e3 e4 _ IH Hstep]; [now left|].
  right. destruct IH as [-> | (e1 & Hc & Hreach1)].
  - exists e4. split; [exact Hstep | apply alcanca_aqui].
  - exists e1. split; [exact Hc|].
    eapply alcanca_passo; [exact Hreach1 | exact Hstep].
Qed.

(** The loop raises the exception of the generator, called in a state it
    has reached with rounds left. *)
Lemma laco_raise (restantes : nat) : forall (e : estado Sol R) (ex : exn),
  repetir restantes e = Raise ex <->
  exists e1, segue e e1 /\
    (iteracao e1 < iteracao e + restantes)%nat /\
    gerar_vizinhos self (solucao_atual e1) (rng e1) = Raise ex.
Proof.
  induction restantes as [|n IH]; intros e ex.
  - simpl. split; [discriminate|]. intros (e1 & Hreach & Hit & _).
    apply (laco_continua self estocastico probabilidade_pior) in Hreach
      as [Hle _]. lia.
  - assert (forall e2,
              gerar_vizinhos self (solucao_atual e2) (rng e2) = Raise ex ->
              rodada e2 = Raise ex) as Hbody.
    { intros e2 Hgen. unfold corpo. now rewrite Hgen. }
    cbn [laco]. destruct (rodada e) as [[e1|e1]|ex1] eqn:Hc; cbn.
    + pose proof (corpo_moveu _ _ _ _ _ Hc)
        as (_ & _ & _ & _ & _ & _ & _ & _ & _ & Hit1 & _).
      rewrite IH. split.
      * intros (e2 & Hreach & Hit & Hgen). exists e2.
        split; [now apply (alcanca_primeiro _ _ _ e e1)|].
        split; [lia | exact Hgen].
      * intros (e2 & Hreach & Hit & Hgen).
        apply alcanca_caso in Hreach as [-> | (e3 & Hc3 & Hreach)].
        -- apply Hbody in Hgen. congruence.
        -- assert (e3 = e1) as -> by congruence.
           exists e2. split; [exact Hreach|]. split; [lia | exact Hgen].
    + split; [discriminate|]. intros (e2 & Hreach & Hit & Hgen).
      apply alcanca_caso in Hreach as [-> | (e3 & Hc3 & _)];
        [apply Hbody in Hgen|]; congruence.
    + split.
      * intros [= <-]. apply corpo_raise in Hc.
        exists e. split; [apply alcanca_aqui|]. split; [lia | exact Hc].
      * intros (e2 & Hreach & Hit & Hgen).
        apply alcanca_caso in Hreach as [-> | (e3 & Hc3 & _)];
          [apply Hbody in Hgen|]; congruence.
Qed.

(** X7: [executar] raises exactly when the generator raises in a state the
    run reaches with an iteration left, and it raises that exception. *)
Theorem executar_raise (solucao_inicial : Sol) (max_iteracoes : nat)
    (r : R) (ex : exn) :
  executar self solucao_inicial max_iteracoes estocastico
    probabilidade_pior r = Raise ex <->
  exists e, segue (inicial self solucao_inicial r) e /\
    (iteracao e < max_iteracoes)%nat /\
    gerar_vizinhos self (solucao_atual e) (rng e) = Raise ex.
Proof. unfold executar. now rewrite laco_raise. Qed.

End MotorMais.

Lemma executar_contadores_witness :
  exists (e : estado Solucao Tape) (s : saida),
    executar (hc_knapsack n_vizinhos_padrao soma true) [0; 0; 0] 4 true
      (1 # 2) [2; 2; 0; 5; 1]%N = Ok (e, s) /\
    head (historico e) = Some (soma [0; 0; 0]) /\
    length (historico e) = S (melhorias e).
Proof.
  eexists _, _. split; [vm_compute; reflexivity|].
  assert (forall (e : estado Solucao Tape) (s : saida),
            executar (hc_knapsack n_vizinhos_padrao soma true) [0; 0; 0] 4
              true (1 # 2) [2; 2; 0; 5; 1]%N = Ok (e, s) ->
            head (historico e) = Some (soma [0; 0; 0]) /\
            length (historico e) = S (melhorias e)) as Hthm.
  { intros e s Hrun.
    destruct (executar_contadores _ _ _ _ _ _ _ _ Hrun) as (Hh & Hl & _).
    split; [exact Hh | exact Hl]. }
  eapply Hthm. vm_compute. reflexivity.
Defined.

Lemma executar_raise_witness :
  executar (hc_knapsack n_vizinhos_padrao soma true) [] 3 true (1 # 2)
    ([] : Tape) = Raise ValueError /\
  exists e,
    alcanca (hc_knapsack n_vizinhos_padrao soma true) true (1 # 2)
      (inicial (hc_knapsack n_vizinhos_padrao soma true) [] ([] : Tape)) e /\
    (iteracao e < 3)%nat /\
    gerar_vizinhos (hc_knapsack n_vizinhos_padrao soma true)
      (solucao_atual e) (rng e) = Raise ValueError.
Proof.
  assert (executar (hc_knapsack n_vizinhos_padrao soma true) [] 3 true
            (1 # 2) ([] : Tape) = Raise ValueError) as Hrun by reflexivity.
  split; [exact Hrun|].
  exact (proj1 (executar_raise (hc_knapsack n_vizinhos_padrao soma true)
                  true (1 # 2) [] 3 [] ValueError) Hrun).
Defined.

(** ** Standard mode: steepest ascent *)

Section PadraoMais.
Context {Sol R : Type} `{RandomSource R}.
Variable self : HillClimbing Sol R.

Lemma eh_melhor_false_nao_piora (a b : Q) :
  eh_melhor self a b = false -> nao_piora self a b.
Proof.
  unfold eh_melhor, nao_piora. destruct (maximizar self); intros Hge;
    now apply Qltb_ge in Hge.
Qed.

Lemma nao_piora_eh_melhor_false (a b : Q) :
  nao_piora self a b -> eh_melhor self a b = false.
Proof.
  unfold eh_melhor, nao_piora. destruct (maximizar self); intros Hle;
    now apply Qltb_ge.
Qed.

(** [eh_melhor] is a strict order on fitness values. *)
Lemma eh_melhor_trans (a b c : Q) :
  eh_melhor self a b = true -> eh_melhor self b c = true ->
  eh_melhor self a c = true.
Proof.
  unfold eh_melhor. destruct (maximizar self); rewrite !Qltb_lt;
    intros Hab Hbc; [exact (Qlt_trans _ _ _ Hbc Hab) |
                     exact (Qlt_trans _ _ _ Hab Hbc)].
Qed.

(** What the standard scan leaves in its variables: no scanned neighbour
    is better than the best fitness, which is the fitness it started
    with, or that of a scanned neighbour better than it. *)
Lemma avaliar_vizinhos_padrao_melhor (p : Q) (vizinhos : list Sol) :
  forall (m : option Sol) (f : Q) (r : R) (m' : option Sol) (f' : Q) (r' : R),
  avaliar_vizinhos self false p vizinhos m f r = (m', f', r') ->
  Forall (fun w => eh_melhor self (funcao_fitness self w) f' = false)
    vizinhos /\
  ((m' = m /\ f' = f) \/
   (exists v, m' = Some v /\ v ∈ vizinhos /\ f' = funcao_fitness self v /\
              eh_melhor self f' f = true)).
Proof.
  induction vizinhos as [|v vs IH]; intros m f r m' f' r' Hscan.
  - simpl in Hscan. injection Hscan as <- <- <-.
    split; [constructor | now left].
  - simpl in Hscan. unfold avaliar_vizinho in Hscan.
    destruct (eh_melhor self (funcao_fitness self v) f) eqn:Hbetter.
    + apply IH in Hscan as [Hall Hsel]. split.
      * constructor; [|exact Hall].
        apply nao_piora_eh_melhor_false.
        destruct Hsel as [[_ ->] | (w & _ & _ & _ & Hw)];
          [apply nao_piora_refl|].
        now apply eh_melhor_nao_piora.
      * right. destruct Hsel as [[-> ->] | (w & -> & Hin & -> & Hw)].
        -- exists v. repeat split; [apply list_elem_of_here | exact Hbetter].
        -- exists w. repeat split; [now apply list_elem_of_further|].
           exact (eh_melhor_trans _ _ _ Hw Hbetter).
    + apply IH in Hscan as [Hall Hsel]. split.
      * constructor; [|exact Hall].
        apply nao_piora_eh_melhor_false.
        apply eh_melhor_false_nao_piora in Hbetter.
        destruct Hsel as [[_ ->] | (w & _ & _ & _ & Hw)]; [exact Hbetter|].
        apply eh_melhor_nao_piora in Hw.
        exact (nao_piora_trans _ _ _ _ Hbetter Hw).
      * destruct Hsel as [Hsame | (w & -> & Hin & -> & Hw)]; [now left|].
        right. exists w. repeat split; [now apply list_elem_of_further|].
        exact Hw.
Qed.

(** X8: a round of standard mode that moves goes to a neighbour of the
    list that is strictly better than the current solution and that no
    neighbour of the list beats; the engine itself draws nothing. *)
Theorem corpo_padrao_melhor_vizinho (p : Q) (e e' : estado Sol R) :
  corpo self false p e = Ok (Moveu e') ->
  exists vizinhos r1,
    gerar_vizinhos self (solucao_atual e) (rng e) = Ok (vizinhos, r1) /\
    solucao_atual e' ∈ vizinhos /\
    fitness_atual e' = funcao_fitness self (solucao_atual e') /\
    eh_melhor self (fitness_atual e') (fitness_atual e) = true /\
    Forall (fun w => eh_melhor self (funcao_fitness self w)
                       (fitness_atual e') = false) vizinhos /\
    rng e' = r1.
Proof.
  intros Hc.
  apply corpo_moveu in Hc
    as (vs & r1 & v & Hgen & Hscan & Hin & Hs & Hf & _).
  pose proof (avaliar_vizinhos_padrao self p _ _ _ _ _ _ _ Hscan) as [_ Hr].
  apply avaliar_vizinhos_padrao_melhor in Hscan
    as [Hall [[? _] | (w & _ & _ & _ & Hbetter)]]; [discriminate|].
  exists vs, r1. rewrite Hs. repeat split; done.
Qed.

(** A round of standard mode converges exactly when no neighbour of the
    list is better than the current solution. *)
Lemma corpo_padrao_convergiu (p : Q) (e : estado Sol R)
    (vizinhos : list Sol) (r1 : R) :
  gerar_vizinhos self (solucao_atual e) (rng e) = Ok (vizinhos, r1) ->
  (exists e', corpo self false p e = Ok (Convergiu e')) <->
  Forall (fun w => eh_melhor self (funcao_fitness self w)
                     (fitness_atual e) = false) vizinhos.
Proof.
  intros Hgen. unfold corpo. rewrite Hgen. cbn -[avaliar_vizinhos].
  destruct (avaliar_vizinhos self false p vizinhos None (fitness_atual e) r1)
    as [[m f] r2] eqn:Hscan.
  apply avaliar_vizinhos_padrao_melhor in Hscan
    as [Hall [[-> ->] | (w & -> & Hin & -> & Hbetter)]].
  - split; [intros _; exact Hall | eauto].
  - split; [intros [e' [=]]|]. intros Hnone.
    rewrite Forall_forall in Hnone. apply Hnone in Hin. congruence.
Qed.

(** X9: a run of standard mode that ends by convergence returns a local
    optimum of the last round: no neighbour generated from the returned
    solution in that round is better than it. *)
Theorem executar_padrao_otimo_local (p : Q) (solucao_inicial : Sol)
    (max_iteracoes : nat) (r : R) (e : estado Sol R) :
  executar self solucao_inicial max_iteracoes false p r
    = Ok (e, PorConvergencia) ->
  exists e1 vizinhos r1,
    alcanca self false p (inicial self solucao_inicial r) e1 /\
    retorno e1 = retorno e /\
    gerar_vizinhos self (solucao_atual e) (rng e1) = Ok (vizinhos, r1) /\
    Forall (fun w => eh_melhor self (funcao_fitness self w)
                       (fitness_atual e) = false) vizinhos.
Proof.
  intros Hrun. unfold executar in Hrun.
  apply laco_alcanca in Hrun as (e1 & Hreach & Hend).
  destruct Hend as [(? & _) | (_ & Hconv & _)]; [discriminate|].
  pose proof (corpo_convergiu _ _ _ _ _ Hconv) as (Hs & Hf & Hh & _).
  destruct (gerar_vizinhos self (solucao_atual e1) (rng e1))
    as [[vs r1]|ex] eqn:Hgen;
    [|unfold corpo in Hconv; rewrite Hgen in Hconv; discriminate].
  exists e1, vs, r1. split; [exact Hreach|].
  split; [unfold retorno; congruence|].
  rewrite Hs, Hf. split; [exact Hgen|].
  apply (corpo_padrao_convergiu p e1 vs r1 Hgen). eauto.
Qed.

(** [b] is strictly better than [a] in the direction of the search. *)
Lemma historico_estrito_moveu (p : Q) (e1 e2 : estado Sol R) :
  StronglySorted (fun a b => eh_melhor self b a = true) (historico e1) /\
  last (historico e1) = Some (fitness_atual e1) ->
  corpo self false p e1 = Ok (Moveu e2) ->
  StronglySorted (fun a b => eh_melhor self b a = true) (historico e2) /\
  last (historico e2) = Some (fitness_atual e2).
Proof.
  intros [Hsorted Hlast] Hc.
  apply corpo_moveu in Hc
    as (vs & r1 & v & _ & Hscan & _ & _ & _ & Hhist & _).
  apply avaliar_vizinhos_padrao_melhor in Hscan
    as [_ [[? _] | (w & _ & _ & _ & Hbetter)]]; [discriminate|].
  split; rewrite Hhist; [|apply last_snoc].
  apply (StronglySorted_snoc _ _ (fitness_atual e1)); try done.
  intros a b c Hab Hbc. exact (eh_melhor_trans _ _ _ Hbc Hab).
Qed.

(** The state [executar] returns has the solution, the fitness, the
    history and the count of moves of a state at the head of the loop. *)
Lemma executar_estado_final (estocastico : bool) (p : Q)
    (solucao_inicial : Sol) (max_iteracoes : nat) (r : R)
    (e : estado Sol R) (s : saida) :
  executar self solucao_inicial max_iteracoes estocastico p r = Ok (e, s) ->
  exists e1,
    alcanca self estocastico p (inicial self solucao_inicial r) e1 /\
    solucao_atual e = solucao_atual e1 /\
    fitness_atual e = fitness_atual e1 /\
    historico e = historico e1 /\
    melhorias e = melhorias e1.
Proof.
  intros Hrun. unfold executar in Hrun.
  apply laco_alcanca in Hrun as (e1 & Hreach & Hend).
  exists e1. split; [exact Hreach|].
  destruct Hend as [(_ & -> & _) | (_ & Hconv & _)]; [done|].
  now apply corpo_convergiu in Hconv as (-> & -> & -> & _ & ->).
Qed.

Lemma historico_estrito (p : Q) (solucao_inicial : Sol)
    (max_iteracoes : nat) (r : R) (e : estado Sol R) (s : saida) :
  executar self solucao_inicial max_iteracoes false p r = Ok (e, s) ->
  StronglySorted (fun a b => eh_melhor self b a = true) (historico e) /\
  last (historico e) = Some (fitness_atual e).
Proof.
  intros Hrun.
  apply executar_estado_final in Hrun as (e1 & Hreach & _ & -> & -> & _).
  apply (alcanca_invariante self false p
           (fun e => StronglySorted (fun a b => eh_melhor self b a = true)
                       (historico e) /\
                     last (historico e) = Some (fitness_atual e))
           (historico_estrito_moveu p)) in Hreach; [exact Hreach|].
  split; [|reflexivity]. simpl. repeat constructor.
Qed.

(** X10: in standard mode every accepted move is a strict improvement: the
    returned history is strictly increasing when maximising and strictly
    decreasing when minimising, so no fitness value occurs twice. *)
Theorem historico_estritamente_monotono (p : Q) (solucao_inicial : Sol)
    (max_iteracoes : nat) (r : R) (e : estado Sol R) (s : saida) :
  executar self solucao_inicial max_iteracoes false p r = Ok (e, s) ->
  (maximizar self = true -> StronglySorted Qlt (historico e)) /\
  (maximizar self = false ->
   StronglySorted (fun a b => (b < a)%Q) (historico e)).
Proof.
  intros Hrun. apply historico_estrito in Hrun as [Hrun _].
  split; intros Hdir; (eapply StronglySorted_mono; [|exact Hrun]);
    unfold eh_melhor; rewrite Hdir; intros a b Hab; now apply Qltb_lt.
Qed.

(** X11: standard mode never returns a worse solution than it was given.
    The returned fitness is strictly better than the initial one when a
    move was made; otherwise the initial solution is returned. *)
Theorem executar_padrao_nao_piora (p : Q) (solucao_inicial : Sol)
    (max_iteracoes : nat) (r : R) (e : estado Sol R) (s : saida) :
  executar self solucao_inicial max_iteracoes false p r = Ok (e, s) ->
  nao_piora self (funcao_fitness self solucao_inicial) (fitness_atual e) /\
  ((0 < melhorias e)%nat ->
   eh_melhor self (fitness_atual e) (funcao_fitness self solucao_inicial)
     = true) /\
  (melhorias e = 0%nat ->
   solucao_atual e = solucao_inicial /\
   fitness_atual e = funcao_fitness self solucao_inicial).
Proof.
  intros Hrun.
  pose proof (historico_estrito _ _ _ _ _ _ Hrun) as [Hsorted Hlast].
  apply executar_estado_final in Hrun as (e1 & Hreach & Hs & _ & Hh & Hm).
  pose proof (contadores_alcanca self false p _ _ _ Hreach)
    as (Hit & Hlen & Hhead).
  rewrite Hs, Hm. rewrite <- Hh in Hlen, Hhead. clear Hh.
  destruct (historico e) as [|f0 h]; [discriminate|].
  simpl in Hhead. injection Hhead as ->. simpl in Hlen.
  apply StronglySorted_inv in Hsorted as [_ Hall].
  destruct h as [|f1 h].
  - simpl in Hlast. injection Hlast as <-.
    split; [apply nao_piora_refl|]. split; [intros; simpl in *; lia|].
    intros _. split; [|reflexivity].
    assert (iteracao e1 = 0%nat) as Hzero by (simpl in Hlen; lia).
    destruct Hreach as [|e2 e3 _ Hstep]; [reflexivity|].
    apply corpo_moveu in Hstep
      as (_ & _ & _ & _ & _ & _ & _ & _ & _ & Hit3 & _). lia.
  - rewrite last_cons_cons in Hlast. apply last_Some_elem_of in Hlast.
    rewrite Forall_forall in Hall. apply Hall in Hlast.
    split; [now apply eh_melhor_nao_piora|]. split; [intros _; exact Hlast|].
    intros Hzero. rewrite Hzero in Hlen. simpl in Hlen. discriminate.
Qed.

(** The standard scan does not read the probability nor the random
    source. *)
Lemma avaliar_vizinhos_padrao_alheio (p q : Q) (vizinhos : list Sol) :
  forall (m : option Sol) (f : Q) (ra rb : R),
  avaliar_vizinhos self false p vizinhos m f ra =
  (fst (fst (avaliar_vizinhos self false q vizinhos m f rb)),
   snd (fst (avaliar_vizinhos self false q vizinhos m f rb)), ra).
Proof.
  induction vizinhos as [|v vs IH]; intros m f ra rb; [reflexivity|].
  simpl. unfold avaliar_vizinho.
  destruct (eh_melhor self (funcao_fitness self v) f); apply IH.
Qed.

(** X12: with [estocastico = False] the value of [probabilidade_pior] has
    no effect on the run. *)
Theorem executar_padrao_ignora_probabilidade (p q : Q)
    (solucao_inicial : Sol) (max_iteracoes : nat) (r : R) :
  executar self solucao_inicial max_iteracoes false p r =
  executar self solucao_inicial max_iteracoes false q r.
Proof.
  unfold executar. generalize (inicial self solucao_inicial r).
  induction max_iteracoes as [|n IH]; intros e; [reflexivity|].
  cbn [laco].
  assert (corpo self false p e = corpo self false q e) as ->.
  { unfold corpo.
    destruct (gerar_vizinhos self (solucao_atual e) (rng e))
      as [[vs r1]|ex]; [|reflexivity]. cbn -[avaliar_vizinhos].
    rewrite (avaliar_vizinhos_padrao_alheio p q vs None _ r1 r1).
    now destruct (avaliar_vizinhos self false q vs None (fitness_atual e) r1)
      as [[m f] r2] eqn:Hscan;
      pose proof (avaliar_vizinhos_padrao self q _ _ _ _ _ _ _ Hscan)
        as [_ ->]. }
  destruct (corpo self false q e) as [[e1|e1]|ex]; cbn; [apply IH | done..].
Qed.

Lemma corpo_padrao_alheio (p : Q) (ea eb : estado Sol R) :
  gerador_alheio_ao_acaso self ->
  mesmo_a_menos_do_acaso ea eb ->
  match corpo self false p ea, corpo self false p eb with
  | Ok (Moveu ea'), Ok (Moveu eb') => mesmo_a_menos_do_acaso ea' eb'
  | Ok (Convergiu ea'), Ok (Convergiu eb') => mesmo_a_menos_do_acaso ea' eb'
  | Raise xa, Raise xb => xa = xb
  | _, _ => False
  end.
Proof.
  intros Hgen (Hs & Hf & Hh & Hi & Hm). unfold corpo.
  specialize (Hgen (solucao_atual ea) (rng ea) (rng eb)).
  rewrite <- Hs.
  destruct (gerar_vizinhos self (solucao_atual ea) (rng ea))
    as [[va ra1]|xa],
    (gerar_vizinhos self (solucao_atual ea) (rng eb)) as [[vb rb1]|xb];
    cbn -[avaliar_vizinhos]; try done.
  subst vb. rewrite <- Hf.
  rewrite (avaliar_vizinhos_padrao_alheio p p va None _ ra1 rb1).
  destruct (avaliar_vizinhos self false p va None (fitness_atual ea) rb1)
    as [[m f] rb']. simpl.
  destruct m as [v|]; repeat split; simpl; congruence.
Qed.

(** X13: standard mode with a generator that does not depend on the random
    source is reproducible without seeding: the returned solution, fitness
    and history are the same from every state of the random source. *)
Theorem executar_padrao_sem_acaso (p : Q) (solucao_inicial : Sol)
    (max_iteracoes : nat) (ra rb : R) :
  gerador_alheio_ao_acaso self ->
  match executar self solucao_inicial max_iteracoes false p ra,
        executar self solucao_inicial max_iteracoes false p rb with
  | Ok (ea, sa), Ok (eb, sb) => retorno ea = retorno eb /\ sa = sb
  | Raise xa, Raise xb => xa = xb
  | _, _ => False
  end.
Proof.
  intros Hgen. unfold executar.
  assert (mesmo_a_menos_do_acaso (inicial self solucao_inicial ra)
            (inicial self solucao_inicial rb)) as Hini
    by (repeat split).
  revert Hini. generalize (inicial self solucao_inicial ra)
                          (inicial self solucao_inicial rb).
  induction max_iteracoes as [|n IH]; intros ea eb Hsame.
  - simpl. destruct Hsame as (Hs & Hf & Hh & _).
    split; [unfold retorno; congruence | reflexivity].
  - cbn [laco]. pose proof (corpo_padrao_alheio p ea eb Hgen Hsame) as Hc.
    destruct (corpo self false p ea) as [[ea1|ea1]|xa],
      (corpo self false p eb) as [[eb1|eb1]|xb]; try done; cbn.
    + now apply IH.
    + destruct Hc as (Hs & Hf & Hh & _).
      split; [unfold retorno; congruence | reflexivity].
Qed.

End PadraoMais.

Lemma corpo_padrao_melhor_vizinho_witness :
  exists e' : estado Solucao Tape,
    corpo (hc_todos soma true) false 0 (inicial (hc_todos soma true)
                                          [0; 1; 0] []) = Ok (Moveu e') /\
    exists vizinhos r1,
      gerar_vizinhos (hc_todos (R := Tape) soma true) [0; 1; 0] []
        = Ok (vizinhos, r1) /\
      solucao_atual e' ∈ vizinhos /\
      fitness_atual e' = soma (solucao_atual e') /\
      eh_melhor (hc_todos (R := Tape) soma true) (fitness_atual e')
        (soma [0; 1; 0]) = true /\
      Forall (fun w => eh_melhor (hc_todos (R := Tape) soma true) (soma w)
                         (fitness_atual e') = false) vizinhos /\
      rng e' = r1.
Proof.
  eexists. split; [vm_compute; reflexivity|].
  eapply (corpo_padrao_melhor_vizinho (hc_todos soma true) 0
            (inicial (hc_todos soma true) [0; 1; 0] ([] : Tape))).
  vm_compute. reflexivity.
Defined.

Lemma executar_padrao_otimo_local_witness :
  exists e : estado Solucao Tape,
    executar (hc_todos soma true) [0; 1; 0] 5 false 0 []
      = Ok (e, PorConvergencia) /\
    exists e1 vizinhos r1,
      alcanca (hc_todos soma true) false 0
        (inicial (hc_todos soma true) [0; 1; 0] []) e1 /\
      retorno e1 = retorno e /\
      gerar_vizinhos (hc_todos soma true) (solucao_atual e) (rng e1)
        = Ok (vizinhos, r1) /\
      Forall (fun w => eh_melhor (hc_todos (R := Tape) soma true) (soma w)
                         (fitness_atual e) = false) vizinhos.
Proof.
  eexists. split; [vm_compute; reflexivity|].
  eapply (executar_padrao_otimo_local (hc_todos soma true) 0 [0; 1; 0] 5
            ([] : Tape)).
  vm_compute. reflexivity.
Defined.

Lemma historico_estritamente_monotono_witness :
  exists (e : estado Solucao Tape) (s : saida),
    executar (hc_todos soma false) [1; 1; 0] 5 false 0 [] = Ok (e, s) /\
    historico e = [2; 1; 0]%Q /\
    StronglySorted (fun a b => (b < a)%Q) (historico e).
Proof.
  eexists _, _. split; [vm_compute; reflexivity|].
  split; [reflexivity|].
  eapply (historico_estritamente_monotono (hc_todos soma false) 0
            [1; 1; 0] 5 ([] : Tape));
    [vm_compute; reflexivity | reflexivity].
Defined.

Lemma executar_padrao_nao_piora_witness :
  exists (e : estado Solucao Tape) (s : saida),
    executar (hc_knapsack n_vizinhos_padrao soma true) [0; 0; 0] 4 false
      (1 # 10) [2; 2; 0; 5; 1]%N = Ok (e, s) /\
    nao_piora (hc_knapsack (R := Tape) n_vizinhos_padrao soma true)
      (soma [0; 0; 0]) (fitness_atual e) /\
    (0 < melhorias e)%nat /\
    eh_melhor (hc_knapsack (R := Tape) n_vizinhos_padrao soma true)
      (fitness_atual e) (soma [0; 0; 0]) = true.
Proof.
  eexists _, _. split; [vm_compute; reflexivity|].
  assert (forall (e : estado Solucao Tape) (s : saida),
            executar (hc_knapsack n_vizinhos_padrao soma true) [0; 0; 0] 4
              false (1 # 10) [2; 2; 0; 5; 1]%N = Ok (e, s) ->
            (0 < melhorias e)%nat ->
            nao_piora (hc_knapsack (R := Tape) n_vizinhos_padrao soma true)
              (soma [0; 0; 0]) (fitness_atual e) /\
            (0 < melhorias e)%nat /\
            eh_melhor (hc_knapsack (R := Tape) n_vizinhos_padrao soma true)
              (fitness_atual e) (soma [0; 0; 0]) = true) as Hthm.
  { intros e s Hrun Hm.
    destruct (executar_padrao_nao_piora _ _ _ _ _ _ _ Hrun)
      as (Hle & Hlt & _).
    split; [exact Hle|]. split; [exact Hm | exact (Hlt Hm)]. }
  eapply Hthm; [vm_compute; reflexivity | simpl; lia].
Defined.

Lemma executar_padrao_sem_acaso_witness :
  gerador_alheio_ao_acaso (hc_todos (R := Tape) soma true) /\
  exists (ea eb : estado Solucao Tape) (sa sb : saida),
    executar (hc_todos soma true) [0; 1; 0] 5 false 0 [7; 9]%N
      = Ok (ea, sa) /\
    executar (hc_todos soma true) [0; 1; 0] 5 false 0 [3]%N = Ok (eb, sb) /\
    retorno ea = retorno eb /\ sa = sb.
Proof.
  assert (gerador_alheio_ao_acaso (hc_todos (R := Tape) soma true)) as Hgen
    by (intros s ra rb; reflexivity).
  split; [exact Hgen|].
  pose proof (executar_padrao_sem_acaso (hc_todos soma true) 0
                [0; 1; 0] 5 [7; 9]%N [3]%N Hgen) as Hsame.
  destruct (executar (hc_todos soma true) [0; 1; 0] 5 false 0 [7; 9]%N)
    as [[ea sa]|xa] eqn:Ha;
    [|vm_compute in Ha; discriminate Ha].
  destruct (executar (hc_todos soma true) [0; 1; 0] 5 false 0 [3]%N)
    as [[eb sb]|xb] eqn:Hb; [|contradiction].
  exists ea, eb, sa, sb. repeat split; apply Hsame.
Defined.

(** ** The scan evaluates a prefix of the neighbours *)

Section Avaliados.
Context {Sol R : Type} `{RandomSource R}.
Variable self : HillClimbing Sol R.

(** X14: the scan calls the fitness function on the neighbours in the
    order of the list, each at most once, and stops at some point of the
    list; in standard mode it evaluates every neighbour. *)
Theorem avaliados_prefixo (estocastico : bool) (p : Q)
    (vizinhos : list Sol) (m : option Sol) (f : Q) (r : R) :
  (exists resto,
     vizinhos = avaliados self estocastico p vizinhos m f r ++ resto) /\
  (estocastico = false ->
   avaliados self estocastico p vizinhos m f r = vizinhos).
Proof.
  revert m f r. induction vizinhos as [|v vs IH]; intros m f r.
  - split; [exists []|]; reflexivity.
  - simpl. destruct (avaliar_vizinho self estocastico p v m f r)
      as [m1 f1 r1|v1 f1 r1] eqn:Hstep.
    + destruct (IH m1 f1 r1) as [[resto Hpre] Hall]. split.
      * exists resto. now rewrite <- app_comm_cons, <- Hpre.
      * intros Hstd. now rewrite (Hall Hstd).
    + split; [exists vs; reflexivity|]. intros ->.
      unfold avaliar_vizinho in Hstep.
      destruct (eh_melhor self (funcao_fitness self v) f); discriminate.
Qed.

End Avaliados.

Lemma avaliados_prefixo_witness :
  (exists resto,
     [[0; 0; 0]; [1; 1; 0]] =
     avaliados (hc_knapsack n_vizinhos_padrao soma true) true (1 # 2)
       [[0; 0; 0]; [1; 1; 0]] None 1 ([] : Tape) ++ resto) /\
  (false = false ->
   avaliados (hc_knapsack n_vizinhos_padrao soma true) false (1 # 2)
     [[0; 0; 0]; [1; 1; 0]] None 1 ([] : Tape) = [[0; 0; 0]; [1; 1; 0]]).
Proof.
  split.
  - apply (avaliados_prefixo (hc_knapsack n_vizinhos_padrao soma true)
             true (1 # 2) [[0; 0; 0]; [1; 1; 0]] None 1 ([] : Tape)).
  - apply (avaliados_prefixo (hc_knapsack n_vizinhos_padrao soma true)
             false (1 # 2) [[0; 0; 0]; [1; 1; 0]] None 1 ([] : Tape)).
Defined.

(** ** The engine run with [gerar_vizinhos_knapsack], continued *)

Lemma diferencas_desde_insert (i : nat) (a b : Solucao) (p : nat) (x : Z) :
  (length (diferencas_desde i a (<[p := x]> b))
   <= S (length (diferencas_desde i a b)))%nat.
Proof.
  revert i b p. induction a as [|y a IH]; intros i b p; [simpl; lia|].
  destruct b as [|z b]; [simpl; lia|].
  destruct p as [|p]; simpl.
  - destruct (y =? x), (y =? z); simpl; lia.
  - specialize (IH (S i) b p). destruct (y =? z); simpl; lia.
Qed.

Lemma vizinho_em_distancia (s0 s : Solucao) (pos : Z) (v : Solucao) :
  vizinho_em s pos v ->
  (length (diferencas s0 v) <= S (length (diferencas s0 s)))%nat.
Proof.
  intros [_ (b & _ & ->)]. apply diferencas_desde_insert.
Qed.

Section KnapsackMais.
Context {R : Type} `{RandomSource R}.
Variable n_vizinhos : nat.
Variable fitness : Solucao -> Q.
Variable direcao : bool.

(** A round that moves goes to the current solution with one position
    flipped. *)
Lemma corpo_knapsack_moveu (estocastico : bool) (p : Q)
    (e e' : estado Solucao R) :
  corpo (hc_knapsack n_vizinhos fitness direcao) estocastico p e
    = Ok (Moveu e') ->
  exists pos, vizinho_em (solucao_atual e) pos (solucao_atual e').
Proof.
  intros Hc.
  apply corpo_moveu in Hc as (vs & r1 & v & Hgen & _ & Hin & -> & _).
  simpl in Hgen.
  apply gerar_vizinhos_knapsack_inv in Hgen as (ps & _ & Hall).
  apply list_elem_of_lookup in Hin as [i Hi].
  destruct (Forall2_lookup_r _ _ _ _ _ Hall Hi) as (pos & _ & Hv). eauto.
Qed.

Lemma knapsack_forma (estocastico : bool) (p : Q) (solucao_inicial : Solucao)
    (r : R) (e : estado Solucao R) :
  alcanca (hc_knapsack n_vizinhos fitness direcao) estocastico p
    (inicial (hc_knapsack n_vizinhos fitness direcao) solucao_inicial r) e ->
  length (solucao_atual e) = length solucao_inicial /\
  (binaria solucao_inicial -> binaria (solucao_atual e)) /\
  (length (diferencas solucao_inicial (solucao_atual e)) <= melhorias e)%nat.
Proof.
  apply (alcanca_invariante _ estocastico p
           (fun e =>
              length (solucao_atual e) = length solucao_inicial /\
              (binaria solucao_inicial -> binaria (solucao_atual e)) /\
              (length (diferencas solucao_inicial (solucao_atual e))
               <= melhorias e)%nat)).
  - intros e1 e2 (Hlen & Hbin & Hdist) Hc.
    pose proof (corpo_knapsack_moveu _ _ _ _ Hc) as [pos Hv].
    apply corpo_moveu in Hc as (_ & _ & _ & _ & _ & _ & _ & _ & _ & _ & Hm).
    pose proof (vizinho_em_distancia solucao_inicial _ _ _ Hv) as Hd.
    split; [|split].
    + apply vizinho_em_uma_diferenca in Hv as [-> _]. exact Hlen.
    + intros Hb. exact (vizinho_em_binaria _ _ _ (Hbin Hb) Hv).
    + rewrite Hm. lia.
  - simpl. unfold deepcopy, diferencas.
    rewrite diferencas_desde_igual. simpl. repeat split; [done | lia].
Qed.

(** Unless the initial solution is empty while a neighbour and a round
    are asked for, no round of the knapsack engine raises. *)
Lemma executar_knapsack_retorna (solucao_inicial : Solucao)
    (max_iteracoes : nat) (estocastico : bool) (p : Q) (r : R) :
  ~ (solucao_inicial = [] /\ (1 <= n_vizinhos)%nat /\
     (1 <= max_iteracoes)%nat) ->
  exists e s,
    executar (hc_knapsack n_vizinhos fitness direcao) solucao_inicial
      max_iteracoes estocastico p r = Ok (e, s).
Proof.
  intros Hnot.
  destruct (executar (hc_knapsack n_vizinhos fitness direcao)
              solucao_inicial max_iteracoes estocastico p r)
    as [[e s]|ex] eqn:Hrun; [eauto|]. exfalso.
  unfold executar in Hrun.
  apply laco_raise in Hrun as (e1 & Hreach & Hit & Hgen).
  apply knapsack_forma in Hreach as (Hlen & _).
  simpl in Hgen, Hit.
  destruct solucao_inicial as [|x s0].
  - destruct n_vizinhos as [|n].
    + unfold gerar_vizinhos_knapsack in Hgen. discriminate Hgen.
    + apply Hnot. repeat split; lia.
  - assert (solucao_atual e1 <> []) as Hne
      by (intros E; rewrite E in Hlen; discriminate Hlen).
    destruct (gerar_laco_spec (solucao_atual e1) n_vizinhos Hne
                [] [] (rng e1))
      as (vs & ps & r' & Hok & _); [apply NoDup_nil_2 | constructor |].
    unfold gerar_vizinhos_knapsack in Hgen. congruence.
Qed.

(** X15: with the knapsack generator the run raises exactly when the
    initial solution is empty and at least one neighbour and one round are
    asked for, and what it raises then is the [ValueError] of
    [random.randint(0, -1)]; in every other case it returns. *)
Theorem executar_knapsack_raise (solucao_inicial : Solucao)
    (max_iteracoes : nat) (estocastico : bool) (p : Q) (r : R) :
  (solucao_inicial = [] /\ (1 <= n_vizinhos)%nat /\ (1 <= max_iteracoes)%nat
   -> executar (hc_knapsack n_vizinhos fitness direcao) solucao_inicial
        max_iteracoes estocastico p r = Raise ValueError) /\
  (~ (solucao_inicial = [] /\ (1 <= n_vizinhos)%nat /\
      (1 <= max_iteracoes)%nat) ->
   exists e s,
     executar (hc_knapsack n_vizinhos fitness direcao) solucao_inicial
       max_iteracoes estocastico p r = Ok (e, s)).
Proof.
  split; [|apply executar_knapsack_retorna].
  intros (-> & Hn & Hmax).
  destruct n_vizinhos as [|n]; [lia|].
  destruct max_iteracoes as [|m]; [lia|]. reflexivity.
Qed.

(** X16: the solution the knapsack engine returns has the length of the
    initial one and, when the initial solution is made of 0s and 1s, so is
    the one returned. *)
Theorem executar_knapsack_forma (solucao_inicial : Solucao)
    (max_iteracoes : nat) (estocastico : bool) (p : Q) (r : R)
    (e : estado Solucao R) (s : saida) :
  executar (hc_knapsack n_vizinhos fitness direcao) solucao_inicial
    max_iteracoes estocastico p r = Ok (e, s) ->
  length (solucao_atual e) = length solucao_inicial /\
  (binaria solucao_inicial -> binaria (solucao_atual e)).
Proof.
  intros Hrun.
  apply executar_estado_final in Hrun as (e1 & Hreach & -> & _).
  apply knapsack_forma in Hreach as (Hlen & Hbin & _). now split.
Qed.

(** X17: every move flips one position, so the solution returned differs
    from the initial one in at most [melhorias] positions. *)
Theorem executar_knapsack_distancia (solucao_inicial : Solucao)
    (max_iteracoes : nat) (estocastico : bool) (p : Q) (r : R)
    (e : estado Solucao R) (s : saida) :
  executar (hc_knapsack n_vizinhos fitness direcao) solucao_inicial
    max_iteracoes estocastico p r = Ok (e, s) ->
  (length (diferencas solucao_inicial (solucao_atual e)) <= melhorias e)%nat.
Proof.
  intros Hrun.
  apply executar_estado_final in Hrun as (e1 & Hreach & -> & _ & _ & ->).
  now apply knapsack_forma in Hreach.
Qed.

End KnapsackMais.

Lemma executar_knapsack_raise_witness :
  executar (hc_knapsack n_vizinhos_padrao soma true) [] 3 false (1 # 10)
    ([] : Tape) = Raise ValueError /\
  exists e s,
    executar (hc_knapsack n_vizinhos_padrao soma true) [0; 1] 3 false
      (1 # 10) ([] : Tape) = Ok (e, s).
Proof.
  split.
  - apply (executar_knapsack_raise n_vizinhos_padrao soma true [] 3 false
             (1 # 10) ([] : Tape)).
    repeat split; unfold n_vizinhos_padrao; lia.
  - apply (executar_knapsack_raise n_vizinhos_padrao soma true [0; 1] 3
             false (1 # 10) ([] : Tape)).
    intros [Hnil _]. discriminate Hnil.
Defined.

Lemma executar_knapsack_forma_witness :
  exists (e : estado Solucao Tape) (s : saida),
    executar (hc_knapsack n_vizinhos_padrao soma true) [0; 0; 1] 4 true
      (1 # 2) [2; 0; 1; 1; 0]%N = Ok (e, s) /\
    length (solucao_atual e) = 3%nat /\
    binaria (solucao_atual e).
Proof.
  eexists _, _. split; [vm_compute; reflexivity|].
  assert (forall (e : estado Solucao Tape) (s : saida),
            executar (hc_knapsack n_vizinhos_padrao soma true) [0; 0; 1] 4
              true (1 # 2) [2; 0; 1; 1; 0]%N = Ok (e, s) ->
            length (solucao_atual e) = 3%nat /\
            binaria (solucao_atual e)) as Hthm.
  { intros e s Hrun.
    destruct (executar_knapsack_forma _ _ _ _ _ _ _ _ _ _ Hrun)
      as [Hlen Hb].
    split; [exact Hlen | apply Hb].
    repeat (constructor; [lia|]). constructor. }
  eapply Hthm. vm_compute. reflexivity.
Defined.

Lemma executar_knapsack_distancia_witness :
  exists (e : estado Solucao Tape) (s : saida),
    executar (hc_knapsack n_vizinhos_padrao soma true) [0; 0; 1] 4 true
      (1 # 2) [2; 0; 1; 1; 0]%N = Ok (e, s) /\
    (length (diferencas [0; 0; 1]%Z (solucao_atual e)) <= melhorias e)%nat.
Proof.
  eexists _, _. split; [vm_compute; reflexivity|].
  eapply (executar_knapsack_distancia n_vizinhos_padrao soma true [0; 0; 1] 4
            true (1 # 2) [2; 0; 1; 1; 0]%N).
  vm_compute. reflexivity.
Defined.

(** ** The generator on the store of objects *)

Section ObjetosMais.
Context {R : Type} `{RandomSource R}.

(** The loop only adds objects to the store, one per neighbour, and
    returns the new objects in the order it made them. *)
Lemma gerar_laco_obj_novos (solucao : ref) (restantes : nat) :
  forall (h : memoria) (vizinhos : list ref) (sorted_pos : list Z) (r : R)
         (vizinhos' : list ref) (h' : memoria) (r' : R),
  gerar_laco_obj h solucao restantes vizinhos sorted_pos r
    = Ok (vizinhos', h', r') ->
  exists novos,
    h' = h ++ novos /\
    vizinhos' = vizinhos ++ seq (length h) (length novos).
Proof.
  induction restantes as [|n IH]; intros h vs ps r vs' h' r' Hrun.
  - simpl in Hrun. injection Hrun as <- <- <-.
    exists []. now rewrite !app_nil_r.
  - cbn [gerar_laco_obj] in Hrun.
    destruct (py_randint 0 (Z.of_nat (length (ler h solucao)) - 1) r)
      as [[pos r1]|ex]; [|discriminate]. cbn -[gerar_laco_obj] in Hrun.
    destruct (existsb (Z.eqb pos) ps); [now apply IH in Hrun|].
    unfold flip_obj in Hrun.
    destruct (flip (ler (h ++ [ler h solucao]) (length h)) pos) as [v|ex];
      [|discriminate]. cbn -[gerar_laco_obj] in Hrun.
    replace (<[length h := v]> (h ++ [ler h solucao])) with (h ++ [v])
      in Hrun
      by (rewrite insert_app_r_alt by lia; now rewrite Nat.sub_diag).
    apply IH in Hrun as (novos & -> & ->).
    exists (v :: novos). rewrite <- !app_assoc. split; [reflexivity|].
    rewrite length_app. simpl. now rewrite Nat.add_1_r.
Qed.

(** X18: the generator works on copies: every object that was in the
    store, the solution it is given included, has the contents it had;
    the neighbours returned are pairwise distinct objects made during the
    call, and the call makes no other object. *)
Theorem gerar_vizinhos_knapsack_obj_copias (n_vizinhos : nat) (h : memoria)
    (solucao : ref) (r : R) (vizinhos : list ref) (h' : memoria) (r' : R) :
  gerar_vizinhos_knapsack_obj n_vizinhos h solucao r
    = Ok (vizinhos, h', r') ->
  (forall l, (l < length h)%nat -> ler h' l = ler h l) /\
  NoDup vizinhos /\
  Forall (fun v => (length h <= v < length h')%nat) vizinhos /\
  length h' = (length h + length vizinhos)%nat.
Proof.
  intros Hrun. apply gerar_laco_obj_novos in Hrun as (novos & -> & ->).
  simpl. rewrite length_app, length_seq. repeat split.
  - intros l Hl. now apply ler_app_l.
  - apply NoDup_seq.
  - apply Forall_forall. intros v Hv. apply elem_of_seq in Hv. lia.
Qed.

End ObjetosMais.

Lemma gerar_vizinhos_knapsack_obj_copias_witness :
  exists (vizinhos : list ref) (h' : memoria) (r' : Tape),
    gerar_vizinhos_knapsack_obj 3 [[7]; [0; 1]] 1 [1; 1; 0]%N
      = Ok (vizinhos, h', r') /\
    vizinhos = [2; 3]%nat /\
    ler h' 1 = [0; 1] /\
    NoDup vizinhos.
Proof.
  eexists _, _, _. split; [vm_compute; reflexivity|].
  split; [reflexivity|].
  assert (forall (vizinhos : list ref) (h' : memoria) (r' : Tape),
            gerar_vizinhos_knapsack_obj 3 [[7]; [0; 1]] 1 [1; 1; 0]%N
              = Ok (vizinhos, h', r') ->
            ler h' 1 = [0; 1] /\ NoDup vizinhos) as Hthm.
  { intros vs h' r' Hrun.
    destruct (gerar_vizinhos_knapsack_obj_copias _ _ _ _ _ _ _ Hrun)
      as (Hler & Hnd & _).
    split; [apply (Hler 1%nat); simpl; lia | exact Hnd]. }
  eapply Hthm. vm_compute. reflexivity.
Defined.

(** ** The driver *)

Section DriverProps.
Context {R : Type} `{RandomSource R}.

Lemma solucao_aleatoria_comprimento (dim : nat) (r : R) :
  length (fst (solucao_aleatoria dim r)) = dim.
Proof.
  revert r. induction dim as [|n IH]; intros r; [reflexivity|].
  simpl. destruct (random r) as [x r1].
  specialize (IH r1). destruct (solucao_aleatoria n r1) as [resto r2].
  simpl in *. now rewrite IH.
Qed.

Lemma solucao_aleatoria_binaria (dim : nat) (r : R) :
  binaria (fst (solucao_aleatoria dim r)).
Proof.
  revert r. induction dim as [|n IH]; intros r; [constructor|].
  simpl. destruct (random r) as [x r1].
  specialize (IH r1). destruct (solucao_aleatoria n r1) as [resto r2].
  simpl in *. constructor; [|exact IH].
  destruct (Qltb literal_0_8 x); [right | left]; reflexivity.
Qed.

(** X19: the random initial solution of the driver has the length asked
    for and is made of 0s and 1s, whatever the draws. *)
Theorem solucao_aleatoria_forma (dim : nat) (r : R) :
  length (fst (solucao_aleatoria dim r)) = dim /\
  binaria (fst (solucao_aleatoria dim r)).
Proof.
  split.
  - apply solucao_aleatoria_comprimento.
  - apply solucao_aleatoria_binaria.
Qed.

(** The fitness [executar] returns is the fitness of the solution it
    returns. *)
Lemma executar_fitness {Sol : Type} (self : HillClimbing Sol R)
    (estocastico : bool) (p : Q) (solucao_inicial : Sol)
    (max_iteracoes : nat) (r : R) (e : estado Sol R) (s : saida) :
  executar self solucao_inicial max_iteracoes estocastico p r = Ok (e, s) ->
  fitness_atual e = funcao_fitness self (solucao_atual e).
Proof.
  intros Hrun.
  apply executar_estado_final in Hrun as (e1 & Hreach & -> & -> & _).
  symmetry.
  apply (alcanca_invariante self estocastico p (fitness_em_dia self))
    in Hreach; [exact (proj2 Hreach) | | apply fitness_em_dia_inicial].
  intros e2 e3 He2 Hc. exact (fitness_em_dia_moveu _ _ _ _ _ He2 Hc).
Qed.

(** One experiment of [n] trials: no trial raises, and each appends the
    value of a solution of [DIM] bits. *)
Lemma ensaios_retorna (knapsack_valor : Solucao -> Q) (estocastico : bool)
    (probabilidade_pior : Q) (n : nat) :
  forall (melhores_fitness : list Q) (r : R),
  exists novos r',
    ensaios knapsack_valor estocastico probabilidade_pior n
      melhores_fitness r = Ok (melhores_fitness ++ novos, r') /\
    length novos = n /\
    Forall (fun f => exists s, length s = DIM /\ binaria s /\
                               f = knapsack_valor s) novos.
Proof.
  induction n as [|n IH]; intros acc r.
  - exists [], r. simpl. rewrite app_nil_r. repeat split. constructor.
  - cbn [ensaios].
    pose proof (solucao_aleatoria_comprimento DIM r) as Hlen.
    pose proof (solucao_aleatoria_binaria DIM r) as Hbin.
    destruct (solucao_aleatoria DIM r) as [s0 r1]. cbn [fst] in Hlen, Hbin.
    destruct (executar_knapsack_retorna n_vizinhos_padrao knapsack_valor
                true s0 MAX_ITERACOES estocastico probabilidade_pior r1)
      as (e & s & Hrun).
    { intros [Hnil _]. rewrite Hnil in Hlen. discriminate Hlen. }
    rewrite Hrun. cbn [mbind result_bind].
    destruct (IH (acc ++ [fitness_atual e]) (rng e))
      as (novos & r' & Hrec & Hn & Hall).
    exists (fitness_atual e :: novos), r'. rewrite Hrec, <- app_assoc.
    split; [reflexivity|]. split; [simpl; now rewrite Hn|].
    constructor; [|exact Hall].
    exists (solucao_atual e).
    pose proof (executar_fitness _ _ _ _ _ _ _ _ Hrun) as Hfit.
    apply executar_estado_final in Hrun as (e1 & Hreach & Hs & _).
    apply knapsack_forma in Hreach as (Hl & Hb & _).
    rewrite <- Hs in Hl, Hb.
    split; [congruence|]. split; [exact (Hb Hbin) | exact Hfit].
Qed.

(** X20: given a [knapsack] that returns a value for every solution, the
    two experiments of the driver never raise; each collects 30 values,
    and every value is the one [knapsack] gives to some solution of [DIM]
    bits. *)
Theorem principal_retorna (knapsack_valor : Solucao -> Q) (r : R) :
  exists melhores_fitness_padrao melhores_fitness_estocastico r',
    principal knapsack_valor r
      = Ok (melhores_fitness_padrao, melhores_fitness_estocastico, r') /\
    length melhores_fitness_padrao = 30%nat /\
    length melhores_fitness_estocastico = 30%nat /\
    Forall (fun f => exists s, length s = DIM /\ binaria s /\
                               f = knapsack_valor s)
      (melhores_fitness_padrao ++ melhores_fitness_estocastico).
Proof.
  unfold principal.
  destruct (ensaios_retorna knapsack_valor false literal_0_1 30 [] r)
    as (a & r1 & Ha & Hla & HPa).
  destruct (ensaios_retorna knapsack_valor true literal_0_05 30 [] r1)
    as (b & r2 & Hb & Hlb & HPb).
  change ([] ++ a) with a in Ha. change ([] ++ b) with b in Hb.
  rewrite Ha. cbn [mbind result_bind]. rewrite Hb. cbn [mbind result_bind].
  exists a, b, r2. repeat split; try done.
  apply Forall_app. now split.
Qed.

End DriverProps.
